(** * Task submission and completion wait of [icon_image_lib/utility.py]

    A shallow embedding of the coroutines of [utility.py]
    ([create_image_task], [poll_task_status], [get_task_status],
    [process_queued_item], [wait_for_completion], [process_row]) as
    functions of a small state-and-exception monad, and the properties of
    the task submission / completion wait core proved about them.

    What the interpreter and [asyncio] do is fixed as follows.
    - Time is a natural number of time units (the seconds of
      [asyncio.sleep] and of the [timeout] arguments).
    - The remote service, the datastore and the pool answer through an
      oracle, the [world]; a datastore read issued at time [t] answers
      after a duration taken from the oracle.
    - [asyncio.wait_for(c, timeout)] runs [c]; when the timer expires
      while [c] is suspended, [CancelledError] is raised in [c] at that
      suspension point.  When [c] then ends with [CancelledError],
      [wait_for] raises [TimeoutError]; when it ends with another
      exception or a value, [wait_for] delivers that.  A suspension that
      would end at the very instant of the timer is cancelled (the timer
      was scheduled first).  What is raised when a timer around the
      caller fires differs between CPython versions (see [wait_for]).
    - A name that is looked up and not bound raises [NameError]; the
      expression of an [except E] clause is evaluated when an exception
      reaches the clause, whatever the class of that exception.
    - Loops are unrolled by a [fuel] argument; [OutOfFuel] means "still
      running", and every statement about a result gives the fuel that
      produces it. *)

From Stdlib Require Import List String Ascii Arith ZArith Lia Bool.
From Stdlib Require Import DecimalString.
Import ListNotations.
Open Scope string_scope.
Open Scope nat_scope.

(** ** Python values *)

Inductive pyval : Type :=
| PNone
| PBool (b : bool)
| PInt (n : Z)
| PStr (s : string).

(** Truth value of an object, as [if x:] and [and] test it. *)
Definition truthy (v : pyval) : bool :=
  match v with
  | PNone => false
  | PBool b => b
  | PInt n => negb (Z.eqb n 0)
  | PStr s => negb (String.eqb s "")
  end.

(** [x is not None] *)
Definition is_not_None (v : pyval) : bool :=
  match v with PNone => false | _ => true end.

(** [str(x)] *)
Definition py_str (v : pyval) : string :=
  match v with
  | PNone => "None"
  | PBool true => "True"
  | PBool false => "False"
  | PInt n => NilZero.string_of_int (Z.to_int n)
  | PStr s => s
  end.

Definition pyval_eqb (a b : pyval) : bool :=
  match a, b with
  | PNone, PNone => true
  | PBool x, PBool y => Bool.eqb x y
  | PInt x, PInt y => Z.eqb x y
  | PStr x, PStr y => String.eqb x y
  | _, _ => false
  end.

(** A [dict] with string keys, in insertion order. *)
Definition dict (V : Type) : Type := list (string * V).

Fixpoint lookup {V : Type} (k : string) (d : dict V) : option V :=
  match d with
  | [] => None
  | (k', v) :: d' => if String.eqb k k' then Some v else lookup k d'
  end.

(** [d.get(k)]: the value, or [None] when the key is absent. *)
Definition dict_get (d : dict pyval) (k : string) : pyval :=
  match lookup k d with
  | Some v => v
  | None => PNone
  end.

(** [needle in hay] on strings. *)
Fixpoint str_contains (needle hay : string) : bool :=
  if String.prefix needle hay then true
  else match hay with
       | EmptyString => false
       | String _ hay' => str_contains needle hay'
       end.

(** A decoded JSON body: a dictionary, or anything else. *)
Inductive json : Type :=
| JDict (d : dict pyval)
| JOther.

(** A value of the dictionaries [process_row] returns: a plain value or
    the nested [{"url": image_url}]. *)
Inductive field : Type :=
| FVal (v : pyval)
| FDict (d : dict pyval).

(** ** Exceptions *)

Inductive exn : Type :=
| PoolError (msg : string)
| NameError (name : string)
| TimeoutError
| CancelledError
| OtherError (msg : string).

(** [isinstance(e, Exception)]: [CancelledError] derives from
    [BaseException] only. *)
Definition is_Exception (e : exn) : bool :=
  match e with
  | CancelledError => false
  | _ => true
  end.

(** [str(e)] *)
Definition exn_str (e : exn) : string :=
  match e with
  | PoolError msg => msg
  | NameError name => "name '" ++ name ++ "' is not defined"
  | TimeoutError => ""
  | CancelledError => ""
  | OtherError msg => msg
  end.

(** ** The module's global names

    [utility.py] names two globals that no statement of the module
    binds: the import of [PoolError] (line 17) and the assignment of
    [global_connection_pool] (lines 18-26) are commented out.  The
    embedding takes the bindings as a parameter, so that the module as it
    is written and the module with the names bound are both instances. *)

Definition pool : Type := nat.

Record globals : Type := mkGlobals {
  PoolError_bound : bool;
  global_connection_pool : option pool
}.

(** The module as written. *)
Definition utility_globals : globals :=
  {| PoolError_bound := false; global_connection_pool := None |}.

(** ** Effects *)

(** An entry of the overflow queue: [(result_id, db_pool)]. *)
Definition item : Type := (nat * pool)%type.

Inductive event : Type :=
| EvPost (dataset_split : list string)   (* POST /api/v1/image/create *)
| EvPoll (task_id : pyval)               (* GET /api/v1/image/poll/{task_id} *)
| EvGetConnection (p : pool)             (* pool.get_connection() returned *)
| EvSelect (result_id : nat)             (* SELECT ... WHERE ResultID = %s *)
| EvInsert (sql : string)                (* cursor.execute(INSERT ...) *)
| EvCommit                               (* connection.commit() *)
| EvClose (p : pool)                     (* conn.close() *)
| EvSleep (d : nat)                      (* asyncio.sleep, time really slept *)
| EvPut (i : item)                       (* queue.put(item) *)
| EvGet (i : item)                       (* queue.get() returned item *)
| EvWait (result_id : nat) (p : pool).   (* wait_for_completion entered *)

Record state : Type := mkState {
  now : nat;                  (* the clock of the event loop *)
  deadline : option nat;      (* earliest pending wait_for timer *)
  queue : list item;          (* the asyncio.Queue the coroutines share *)
  trace : list event          (* what happened so far, oldest first *)
}.

Definition set_now (t : nat) (s : state) : state :=
  mkState t (deadline s) (queue s) (trace s).
Definition set_deadline (d : option nat) (s : state) : state :=
  mkState (now s) d (queue s) (trace s).
Definition set_queue (q : list item) (s : state) : state :=
  mkState (now s) (deadline s) q (trace s).
Definition log (evs : list event) (s : state) : state :=
  mkState (now s) (deadline s) (queue s) (trace s ++ evs).

Inductive outcome (A : Type) : Type :=
| Ret (a : A)        (* returned a *)
| Raise (e : exn)    (* raised e *)
| Hang               (* suspended for ever *)
| OutOfFuel.         (* still running when the fuel ran out *)
Arguments Ret {A} a.
Arguments Raise {A} e.
Arguments Hang {A}.
Arguments OutOfFuel {A}.

Definition M (A : Type) : Type := state -> outcome A * state.

Definition ret {A : Type} (a : A) : M A := fun s => (Ret a, s).
Definition raise {A : Type} (e : exn) : M A := fun s => (Raise e, s).

Definition bind {A B : Type} (m : M A) (f : A -> M B) : M B :=
  fun s =>
    match m s with
    | (Ret a, s') => f a s'
    | (Raise e, s') => (Raise e, s')
    | (Hang, s') => (Hang, s')
    | (OutOfFuel, s') => (OutOfFuel, s')
    end.

(** [try: m except: h] where [h] receives whatever was raised. *)
Definition try_except {A : Type} (m : M A) (h : exn -> M A) : M A :=
  fun s =>
    match m s with
    | (Raise e, s') => h e s'
    | r => r
    end.

Notation "x <- m ;; k" := (bind m (fun x => k))
  (at level 61, m at next level, right associativity).
Notation "m ;;; k" := (bind m (fun _ => k))
  (at level 61, right associativity).

Definition emit (evs : list event) : M unit := fun s => (Ret tt, log evs s).

(** A suspension of [d] time units: it ends normally when it ends before
    the pending timer, and is cancelled at the timer otherwise. *)
Definition cancelled_by (dl : option nat) (t : nat) : bool :=
  match dl with
  | Some d => d <=? t
  | None => false
  end.

(** [await asyncio.sleep(d)] *)
Definition sleep (d : nat) : M unit :=
  fun s =>
    if cancelled_by (deadline s) (now s + d) then
      match deadline s with
      | Some dl =>
          let t := Nat.max (now s) dl in
          (Raise CancelledError, log [EvSleep (t - now s)] (set_now t s))
      | None => (Raise CancelledError, s)
      end
    else (Ret tt, log [EvSleep d] (set_now (now s + d) s)).

(** [await queue.put(item)]: the queue is unbounded, nothing suspends. *)
Definition queue_put (i : item) : M unit :=
  fun s => (Ret tt, log [EvPut i] (set_queue (queue s ++ [i]) s)).

(** [await queue.get()]: on an empty queue the coroutine stays suspended,
    until a pending timer cancels it, for ever without one. *)
Definition queue_get : M item :=
  fun s =>
    match queue s with
    | i :: q => (Ret i, log [EvGet i] (set_queue q s))
    | [] =>
        match deadline s with
        | Some dl => (Raise CancelledError, set_now (Nat.max (now s) dl) s)
        | None => (Hang, s)
        end
    end.

(** [asyncio.wait_for(m, timeout)].  When its own timer fires, the
    cancellation is raised in [m]; a [CancelledError] that comes back
    becomes [TimeoutError], anything else [m] ends with is delivered
    (CPython 3.8.4 and later).  When a timer around the caller fires
    first, the cancellation is raised in [m] in the same way and what [m]
    ends with is delivered: this is CPython 3.12 and later, where [m]
    runs in the caller's task.  CPython 3.8 to 3.11 run [m] in a task of
    its own and then re-raise the caller's [CancelledError] whatever [m]
    ended with; statements about what is raised are therefore made for
    calls outside any other timer ([deadline s = None]), where the
    versions agree.  A [CancelledError] that [m] raises by itself is
    taken for the timer's. *)
Definition wait_for {A : Type} (timeout : nat) (m : M A) : M A :=
  fun s =>
    let outer := deadline s in
    let mine := now s + timeout in
    let own := match outer with
               | Some d => mine <? d
               | None => true
               end in
    let eff := if own then mine else match outer with Some d => d | None => mine end in
    match m (set_deadline (Some eff) s) with
    | (Raise CancelledError, s') =>
        (Raise (if own then TimeoutError else CancelledError), set_deadline outer s')
    | (o, s') => (o, set_deadline outer s')
    end.

(** A suspension of [d] time units that leaves no event (an HTTP round
    trip). *)
Definition suspend (d : nat) : M unit :=
  fun s =>
    if cancelled_by (deadline s) (now s + d) then
      match deadline s with
      | Some dl => (Raise CancelledError, set_now (Nat.max (now s) dl) s)
      | None => (Raise CancelledError, s)
      end
    else (Ret tt, set_now (now s + d) s).

(** ** The world outside the module *)

Inductive reply (A : Type) : Type :=
| Ok (a : A)
| Fails (e : exn).
Arguments Ok {A} a.
Arguments Fails {A} e.

(** The row [fetchone()] returns under [cursor(dictionary=True)]. *)
Record db_row : Type := mkRow {
  completeTime : pyval;
  EntryID : pyval;
  ImageUrl : pyval;
  ImageDesc : pyval
}.

(** What one run of [get_task_status] meets. *)
Inductive read_result : Type :=
| AcquireFails (e : exn)            (* pool.get_connection() raises *)
| CursorFails (e : exn)             (* conn.cursor() raises: no statement is run *)
| QueryFails (e : exn)              (* execute, fetchone, leaving the cursor
                                       block or conn.close() raises *)
| Fetched (row : option db_row).    (* fetchone(): a row, or None *)

(** The calls [process_row] makes on the datastore, in order. *)
Inductive db_call : Type :=
| CGetConnection | CCursor | CExecute | CCommit | CCursorClose | CConnClose.

Record world : Type := mkWorld {
  (* POST create at time t with this body: duration, decoded answer *)
  w_create : nat -> list string -> nat * reply json;
  (* the calls around this INSERT statement: the exception raised, if any *)
  w_insert : string -> db_call -> option exn;
  (* cursor.lastrowid after the INSERT *)
  w_lastrowid : nat;
  (* get_task_status started at time t on pool p for id r: duration, result *)
  w_read : nat -> pool -> nat -> nat * read_result;
  (* GET poll at time t for this task: duration, decoded answer *)
  w_poll : nat -> pyval -> nat * reply json;
  (* int(os.environ.get('POLL_INTERVAL')) *)
  w_poll_interval : reply Z
}.

Definition triple : Type := (pyval * pyval * pyval)%type.

Definition out_of_fuel {A : Type} : M A := fun s => (OutOfFuel, s).

Section Coroutines.

Variable G : globals.
Variable W : world.

(** *** [create_image_task] (lines 28-41) *)
Definition create_image_task (dataset_split : list string) : M json :=
  fun s =>
    let '(d, r) := w_create W (now s) dataset_split in
    (emit [EvPost dataset_split] ;;;
     suspend d ;;;
     match r with
     | Ok result => ret result
     | Fails e => raise e          (* logged, then re-raised *)
     end) s.

(** *** [get_task_status] (lines 68-85)

    A synchronous function: the connection is taken before the [try], so
    a failing [get_connection] closes nothing; once taken, the connection
    is closed in the [finally], whatever the query does, and also when
    the cursor cannot be opened and no statement is run. *)
Definition get_task_status (t : nat) (task_id : nat) (p : pool)
  : list event * reply (option db_row) :=
  match snd (w_read W t p task_id) with
  | AcquireFails e => ([], Fails e)
  | CursorFails e => ([EvGetConnection p; EvClose p], Fails e)
  | QueryFails e => ([EvGetConnection p; EvSelect task_id; EvClose p], Fails e)
  | Fetched result => ([EvGetConnection p; EvSelect task_id; EvClose p], Ok result)
  end.

(** [await loop.run_in_executor(pool, get_task_status, result_id, db_pool)]
    inside [with ThreadPoolExecutor() as pool].  When the coroutine is
    cancelled during the call, the worker thread still finishes it, and
    leaving the [with] block waits for the worker: the clock is past the
    call either way. *)
Definition run_in_executor (result_id : nat) (db_pool : pool) : M (option db_row) :=
  fun s =>
    let d := fst (w_read W (now s) db_pool result_id) in
    let '(evs, r) := get_task_status (now s) result_id db_pool in
    let s' := log evs (set_now (now s + d) s) in
    if cancelled_by (deadline s) (now s + d) then (Raise CancelledError, s')
    else match r with
         | Ok result => (Ret result, s')
         | Fails e => (Raise e, s')
         end.

(** The body of the [try] of [poll_database] (lines 103-108):
    [Some t] when it returns [t], [None] when it falls through to the
    next iteration. *)
Definition poll_once (result_id : nat) (db_pool : pool) : M (option triple) :=
  result <- run_in_executor result_id db_pool ;;
  match result with
  | Some r =>
      if truthy (completeTime r)
      then ret (Some (EntryID r, ImageUrl r, ImageDesc r))
      else sleep 5 ;;; ret None
  | None => sleep 5 ;;; ret None
  end.

(** [except PoolError as e:] (lines 109-115), reached by exception [e];
    [hand_off] is lines 112-113.  The clause first evaluates the name
    [PoolError]. *)
Definition except_PoolError (e : exn) (hand_off : M triple) : M triple :=
  if PoolError_bound G then
    match e with
    | PoolError msg =>
        if str_contains "pool exhausted" msg then hand_off else raise e
    | _ => raise e
    end
  else raise (NameError "PoolError").

(** *** [process_queued_item] (lines 87-95), [wait_for_completion]
    (lines 97-123) and its inner [poll_database] (lines 98-115) *)
Fixpoint process_queued_item (fuel : nat) (result_id : nat) {struct fuel} : M triple :=
  match fuel with
  | 0 => out_of_fuel
  | S fuel' =>
      i <- queue_get ;;
      if fst i =? result_id
      then wait_for_completion fuel' result_id (snd i)
      else queue_put i ;;; process_queued_item fuel' result_id
  end
with wait_for_completion (fuel : nat) (result_id : nat) (db_pool : pool)
       {struct fuel} : M triple :=
  match fuel with
  | 0 => out_of_fuel
  | S fuel' =>
      emit [EvWait result_id db_pool] ;;;
      try_except (wait_for 1800 (poll_database fuel' result_id db_pool))
        (fun e => match e with
                  | TimeoutError => ret (PNone, PNone, PNone)
                  | _ => raise e
                  end)
  end
with poll_database (fuel : nat) (result_id : nat) (db_pool : pool)
       {struct fuel} : M triple :=
  match fuel with
  | 0 => out_of_fuel
  | S fuel' =>
      fun s =>
        match poll_once result_id db_pool s with
        | (Ret (Some t), s') => (Ret t, s')
        | (Ret None, s') => poll_database fuel' result_id db_pool s'
        | (Raise e, s') =>
            except_PoolError e
              (queue_put (result_id, db_pool) ;;;
               process_queued_item fuel' result_id) s'
        | (Hang, s') => (Hang, s')
        | (OutOfFuel, s') => (OutOfFuel, s')
        end
  end.

(** *** [process_row] (lines 159-234) *)

(** [create_response.get('task_id')] *)
Definition json_get (j : json) (k : string) : M pyval :=
  match j with
  | JDict d => ret (dict_get d k)
  | JOther => raise (OtherError "object has no attribute 'get'")
  end.

(** Reading the global [global_connection_pool]. *)
Definition load_global_connection_pool : M pool :=
  match global_connection_pool G with
  | Some p => ret p
  | None => raise (NameError "global_connection_pool")
  end.

Definition db_step (sql : string) (c : db_call) (evs : list event) : M unit :=
  match w_insert W sql c with
  | Some e => raise e
  | None => emit evs
  end.

Definition insert_query (absolute_row_index uniqueid original_search_value : pyval)
  : string :=
  "INSERT INTO utb_ImageScraperResult (EntryID,FileID,SearchValue) values ("
    ++ py_str absolute_row_index ++ ",'" ++ py_str uniqueid ++ "', '"
    ++ py_str original_search_value ++ "')".

Definition row_result (k : string) (v : field)
           (absolute_row_index original_search_value : pyval) : dict field :=
  [(k, v);
   ("absoluteRowIndex", FVal absolute_row_index);
   ("originalSearchValue", FVal original_search_value)].

(** [except Exception as e:] *)
Definition except_Exception {A : Type} (m : M A) (h : exn -> M A) : M A :=
  try_except m (fun e => if is_Exception e then h e else raise e).

Definition process_row (fuel : nat) (row : dict pyval) (uniqueid : pyval)
  : M (dict field) :=
  let absolute_row_index := dict_get row "absoluteRowIndex" in
  let original_search_value := dict_get row "searchValue" in
  except_Exception
    (let dataset_split :=
       [py_str (dict_get row "brandValue"); py_str (dict_get row "searchValue");
        py_str absolute_row_index; py_str uniqueid] in
     create_response <- create_image_task dataset_split ;;
     task_id <- json_get create_response "task_id" ;;
     p <- load_global_connection_pool ;;
     let sql_query := insert_query absolute_row_index uniqueid original_search_value in
     db_step sql_query CGetConnection [EvGetConnection p] ;;;
     db_step sql_query CCursor [] ;;;
     db_step sql_query CExecute [EvInsert sql_query] ;;;
     db_step sql_query CCommit [EvCommit] ;;;
     let result_id := w_lastrowid W in
     db_step sql_query CCursorClose [] ;;;
     db_step sql_query CConnClose [EvClose p] ;;;
     if truthy task_id then
       (fun s => (Ret tt, set_queue [] s)) ;;;      (* queue = asyncio.Queue() *)
       t <- wait_for_completion fuel result_id p ;;
       let '(entry_id, image_url, image_desc) := t in
       if is_not_None entry_id && is_not_None image_url && is_not_None image_desc
       then ret (row_result "result" (FDict [("url", image_url)])
                            absolute_row_index original_search_value)
       else ret (row_result "error" (FVal (PStr "Task did not complete successfully."))
                            absolute_row_index original_search_value)
     else ret (row_result "error" (FVal (PStr "Failed to start task."))
                          absolute_row_index original_search_value))
    (fun e => ret (row_result "error" (FVal (PStr (exn_str e)))
                              absolute_row_index original_search_value)).

(** *** [poll_task_status] (lines 44-66) *)

(** [data['status']] *)
Definition json_subscript (j : json) (k : string) : M pyval :=
  match j with
  | JDict d =>
      match lookup k d with
      | Some v => ret v
      | None => raise (OtherError ("'" ++ k ++ "'"))     (* KeyError *)
      end
  | JOther => raise (OtherError "object is not subscriptable")
  end.

Definition json_dict (j : json) : dict pyval :=
  match j with
  | JDict d => d
  | JOther => []
  end.

Fixpoint poll_loop (fuel : nat) (task_id : pyval) (timeout start_time : nat)
  : M (dict pyval) :=
  match fuel with
  | 0 => out_of_fuel
  | S fuel' =>
      fun s =>
        let current_time := now s in
        if timeout <? current_time - start_time then
          (Ret [("error", PStr "Polling timeout reached. Task abandoned.")], s)
        else
          let '(d, r) := w_poll W current_time task_id in
          (emit [EvPoll task_id] ;;;
           suspend d ;;;
           match r with
           | Fails e => raise e
           | Ok data =>
               status <- json_subscript data "status" ;;
               if pyval_eqb status (PStr "Completed") then ret (json_dict data)
               else if pyval_eqb status (PStr "Failed")
                       || pyval_eqb status (PStr "Error")
               then ret [("error", PStr "Task failed or encountered an error")]
               else match w_poll_interval W with
                    | Fails e => raise e
                    | Ok n => sleep (Z.to_nat n) ;;;
                              poll_loop fuel' task_id timeout start_time
                    end
           end) s
  end.

Definition poll_task_status (fuel : nat) (task_id : pyval) (timeout : nat)
  : M (dict pyval) :=
  fun s => poll_loop fuel task_id timeout (now s) s.

End Coroutines.

Definition default_timeout : nat := 5000.

Open Scope list_scope.

(** ** What a coroutine adds to the trace *)

Definition terminated {A : Type} (o : outcome A) : Prop :=
  match o with
  | Ret _ | Raise _ => True
  | Hang | OutOfFuel => False
  end.

(** [emits ok m]: from every state, [m] only appends events to the trace,
    and the appended events satisfy [ok]. *)
Definition emits {A : Type} (ok : list event -> Prop) (m : M A) : Prop :=
  forall s, exists evs, trace (snd (m s)) = trace s ++ evs /\ ok evs.

Section Frame.

Variable ok : list event -> Prop.
Hypothesis ok_nil : ok [].
Hypothesis ok_app : forall a b, ok a -> ok b -> ok (a ++ b).

Lemma emits_same {A : Type} (m : M A) :
  (forall s, trace (snd (m s)) = trace s) -> emits ok m.
Proof.
  intros H s. exists []. rewrite app_nil_r. auto.
Qed.

Lemma emits_ret {A : Type} (a : A) : emits ok (ret a).
Proof. apply emits_same. reflexivity. Qed.

Lemma emits_raise {A : Type} (e : exn) : emits ok (@raise A e).
Proof. apply emits_same. reflexivity. Qed.

Lemma emits_out_of_fuel {A : Type} : emits ok (@out_of_fuel A).
Proof. apply emits_same. reflexivity. Qed.

Lemma emits_emit (evs : list event) : ok evs -> emits ok (emit evs).
Proof. intros H s. exists evs. auto. Qed.

Lemma emits_bind {A B : Type} (m : M A) (f : A -> M B) :
  emits ok m -> (forall a, emits ok (f a)) -> emits ok (bind m f).
Proof.
  intros Hm Hf s. unfold bind.
  destruct (Hm s) as [e1 [E1 O1]].
  destruct (m s) as [[a | e | | ] s1]; simpl in E1; try solve [ exists e1; auto ].
  destruct (Hf a s1) as [e2 [E2 O2]].
  exists (e1 ++ e2). rewrite E2, E1, app_assoc. auto.
Qed.

Lemma emits_try_except {A : Type} (m : M A) (h : exn -> M A) :
  emits ok m -> (forall e, emits ok (h e)) -> emits ok (try_except m h).
Proof.
  intros Hm Hh s. unfold try_except.
  destruct (Hm s) as [e1 [E1 O1]].
  destruct (m s) as [[a | e | | ] s1]; simpl in E1; try solve [ exists e1; auto ].
  destruct (Hh e s1) as [e2 [E2 O2]].
  exists (e1 ++ e2). rewrite E2, E1, app_assoc. auto.
Qed.

Lemma emits_wait_for {A : Type} (timeout : nat) (m : M A) :
  emits ok m -> emits ok (wait_for timeout m).
Proof.
  intros Hm s. unfold wait_for.
  match goal with
  | |- context [m ?s0] => destruct (Hm s0) as [e1 [E1 O1]]; destruct (m s0) as [o s1]
  end.
  exists e1. simpl in E1. split; [ | exact O1 ].
  destruct o as [a | [ | | | | ] | | ]; simpl; exact E1.
Qed.

Lemma emits_suspend (d : nat) : emits ok (suspend d).
Proof.
  apply emits_same. intros s. unfold suspend.
  destruct (cancelled_by _ _); [ destruct (deadline s) | ]; reflexivity.
Qed.

Lemma emits_queue_put (i : item) : ok [EvPut i] -> emits ok (queue_put i).
Proof. intros H s. exists [EvPut i]. auto. Qed.

Lemma emits_queue_get : (forall i, ok [EvGet i]) -> emits ok queue_get.
Proof.
  intros H s. unfold queue_get.
  destruct (queue s) as [ | i q].
  - exists []. rewrite app_nil_r. destruct (deadline s); auto.
  - exists [EvGet i]. auto.
Qed.

Lemma emits_sleep (d : nat) : (forall n, ok [EvSleep n]) -> emits ok (sleep d).
Proof.
  intros H s. unfold sleep.
  destruct (cancelled_by _ _); [ destruct (deadline s) | ].
  - eexists. split; [ reflexivity | apply H ].
  - exists []. rewrite app_nil_r. auto.
  - eexists. split; [ reflexivity | apply H ].
Qed.

Section FrameCoroutines.

Variable G : globals.
Variable W : world.

Hypothesis ok_read :
  forall p r, ok [EvGetConnection p; EvSelect r; EvClose p].
Hypothesis ok_open_close :
  forall p, ok [EvGetConnection p; EvClose p].
Hypothesis ok_sleep : forall n, ok [EvSleep n].
Hypothesis ok_put : forall i, ok [EvPut i].
Hypothesis ok_get : forall i, ok [EvGet i].
Hypothesis ok_wait : forall r p, ok [EvWait r p].

Lemma emits_run_in_executor (result_id : nat) (db_pool : pool) :
  emits ok (run_in_executor W result_id db_pool).
Proof.
  intros s. unfold run_in_executor, get_task_status.
  destruct (snd (w_read W (now s) db_pool result_id)) as [e | e | e | row];
    destruct (cancelled_by _ _); simpl;
    solve [ exists []; rewrite app_nil_r; auto
          | eexists; split; [ reflexivity | apply ok_read ]
          | eexists; split; [ reflexivity | apply ok_open_close ] ].
Qed.

Lemma emits_poll_once (result_id : nat) (db_pool : pool) :
  emits ok (poll_once W result_id db_pool).
Proof.
  unfold poll_once. apply emits_bind; [ apply emits_run_in_executor | ].
  intros [r | ]; [ destruct (truthy (completeTime r)) | ];
    repeat first [ apply emits_ret | apply emits_bind | apply emits_sleep
                 | apply ok_sleep | intro ].
Qed.

Lemma emits_except_PoolError (e : exn) (hand_off : M triple) :
  emits ok hand_off -> emits ok (except_PoolError G e hand_off).
Proof.
  intros H. unfold except_PoolError.
  destruct (PoolError_bound G); [ | apply emits_raise ].
  destruct e; try apply emits_raise.
  destruct (str_contains _ _); [ exact H | apply emits_raise ].
Qed.

(** The three coroutines of the completion wait, together. *)
Lemma emits_wait_coroutines (fuel : nat) :
  (forall r, emits ok (process_queued_item G W fuel r))
  /\ (forall r p, emits ok (wait_for_completion G W fuel r p))
  /\ (forall r p, emits ok (poll_database G W fuel r p)).
Proof.
  induction fuel as [ | fuel [IHq [IHw IHp]]].
  - repeat split; intros; apply emits_out_of_fuel.
  - repeat split; intros; simpl.
    + apply emits_bind; [ apply emits_queue_get, ok_get | ].
      intros i. destruct (fst i =? r); [ apply IHw | ].
      apply emits_bind; [ apply emits_queue_put, ok_put | intros _; apply IHq ].
    + apply emits_bind; [ apply emits_emit, ok_wait | intros _ ].
      apply emits_try_except; [ apply emits_wait_for, IHp | ].
      intros e; destruct e; first [ apply emits_ret | apply emits_raise ].
    + intros s.
      destruct (emits_poll_once r p s) as [e1 [E1 O1]].
      destruct (poll_once W r p s) as [[[t | ] | e | | ] s1]; simpl in E1;
        try solve [ exists e1; auto ].
      * destruct (IHp r p s1) as [e2 [E2 O2]].
        exists (e1 ++ e2). rewrite E2, E1, app_assoc. auto.
      * assert (Hh : emits ok (except_PoolError G e
                   (queue_put (r, p) ;;; process_queued_item G W fuel r))).
        { apply emits_except_PoolError.
          apply emits_bind; [ apply emits_queue_put, ok_put | intros _; apply IHq ]. }
        destruct (Hh s1) as [e2 [E2 O2]].
        exists (e1 ++ e2). rewrite E2, E1, app_assoc. auto.
Qed.

End FrameCoroutines.

End Frame.

(** ** The discipline of the completion wait on connections *)

Inductive conn_state : Type :=
| Free          (* no connection is held *)
| Acquired      (* a connection was taken, the read is to come *)
| ReadDone.     (* the read is done, the connection is still held *)

(** Accepts the traces in which every connection that is taken serves one
    read (or none, when the cursor cannot be opened) and is closed at
    once, in which sleeping, queueing and entering a wait happen with no
    connection held, and in which nothing else (no INSERT, no commit, no
    remote call) happens. *)
Fixpoint conn_discipline (c : conn_state) (evs : list event) : bool :=
  match evs with
  | [] => match c with Free => true | _ => false end
  | ev :: evs' =>
      match ev, c with
      | EvGetConnection _, Free => conn_discipline Acquired evs'
      | EvSelect _, Acquired => conn_discipline ReadDone evs'
      | EvClose _, ReadDone => conn_discipline Free evs'
      | EvClose _, Acquired => conn_discipline Free evs'
      | EvSleep _, Free => conn_discipline Free evs'
      | EvPut _, Free => conn_discipline Free evs'
      | EvGet _, Free => conn_discipline Free evs'
      | EvWait _ _, Free => conn_discipline Free evs'
      | _, _ => false
      end
  end.

(** The events that change the Result Store. *)
Definition is_write (ev : event) : bool :=
  match ev with
  | EvInsert _ | EvCommit => true
  | _ => false
  end.

Definition store_writes (evs : list event) : list event := filter is_write evs.

Lemma conn_discipline_app (a b : list event) : forall c,
  conn_discipline c a = true -> conn_discipline Free b = true ->
  conn_discipline c (a ++ b) = true.
Proof.
  induction a as [ | ev a IH]; intros c Ha Hb.
  - destruct c; simpl in *; congruence.
  - simpl in *. destruct ev, c; try discriminate; apply IH; assumption.
Qed.

Lemma store_writes_app (a b : list event) :
  store_writes (a ++ b) = store_writes a ++ store_writes b.
Proof. apply filter_app. Qed.

(** ** Rotation of the overflow queue *)

(** The events of taking each item of [pre] and putting it back. *)
Definition rotation (pre : list item) : list event :=
  flat_map (fun i => [EvGet i; EvPut i]) pre.

Definition gets (evs : list event) : nat :=
  List.length (filter (fun ev => match ev with EvGet _ => true | _ => false end) evs).

Lemma gets_rotation (pre : list item) : gets (rotation pre) = List.length pre.
Proof.
  unfold gets. induction pre as [ | i pre IH]; simpl; [ reflexivity | ].
  f_equal. exact IH.
Qed.

(** The queue up to its first item for [result_id]. *)
Fixpoint first_match (result_id : nat) (q : list item)
  : option (list item * pool * list item) :=
  match q with
  | [] => None
  | i :: q' =>
      if fst i =? result_id then Some ([], snd i, q')
      else match first_match result_id q' with
           | Some (pre, p, post) => Some (i :: pre, p, post)
           | None => None
           end
  end.

Lemma first_match_Some (result_id : nat) : forall q pre p post,
  first_match result_id q = Some (pre, p, post) ->
  q = pre ++ (result_id, p) :: post
  /\ Forall (fun i => fst i <> result_id) pre.
Proof.
  induction q as [ | [r p0] q IH]; intros pre p post H; simpl in H.
  - discriminate.
  - destruct (r =? result_id) eqn:E.
    + apply Nat.eqb_eq in E. inversion H; subst. simpl. auto.
    + destruct (first_match result_id q) as [[[pre' p'] post'] | ]; [ | discriminate ].
      inversion H; subst. destruct (IH _ _ _ eq_refl) as [Hq Hpre].
      apply Nat.eqb_neq in E. subst q. simpl. auto.
Qed.

Lemma first_match_None (result_id : nat) : forall q,
  first_match result_id q = None -> Forall (fun i => fst i <> result_id) q.
Proof.
  induction q as [ | i q IH]; intros H; simpl in H; [ constructor | ].
  destruct (fst i =? result_id) eqn:E; [ discriminate | ].
  apply Nat.eqb_neq in E.
  destruct (first_match result_id q) as [[[pre' p'] post'] | ]; [ discriminate | ].
  constructor; auto.
Qed.

Lemma first_match_Exists (result_id : nat) : forall q,
  Exists (fun i => fst i = result_id) q ->
  exists pre p post, first_match result_id q = Some (pre, p, post).
Proof.
  intros q H. destruct (first_match result_id q) as [[[pre p] post] | ] eqn:E.
  - eauto.
  - apply first_match_None in E. apply Exists_exists in H.
    destruct H as [i [Hin Hi]]. rewrite Forall_forall in E.
    exfalso. exact (E i Hin Hi).
Qed.

Section Rotation.

Variable G : globals.
Variable W : world.

Lemma process_queued_item_head_match (f result_id : nat) (p : pool) (s : state)
      (q : list item) :
  queue s = (result_id, p) :: q ->
  process_queued_item G W (S f) result_id s
  = wait_for_completion G W f result_id p
      (log [EvGet (result_id, p)] (set_queue q s)).
Proof.
  intros Hq. simpl. unfold bind at 1, queue_get. rewrite Hq. simpl.
  rewrite Nat.eqb_refl. reflexivity.
Qed.

Lemma process_queued_item_head_mismatch (f result_id : nat) (i : item) (s : state)
      (q : list item) :
  queue s = i :: q -> fst i <> result_id ->
  process_queued_item G W (S f) result_id s
  = process_queued_item G W f result_id
      (log [EvGet i; EvPut i] (set_queue (q ++ [i]) s)).
Proof.
  intros Hq Hi. simpl. unfold bind at 1, queue_get. rewrite Hq. simpl.
  apply Nat.eqb_neq in Hi. rewrite Hi.
  unfold bind, queue_put, log, set_queue. simpl.
  rewrite <- app_assoc. reflexivity.
Qed.

Lemma process_queued_item_rotates (result_id : nat) (p : pool) :
  forall pre post f t dl tr,
    Forall (fun i => fst i <> result_id) pre ->
    process_queued_item G W (List.length pre + S f) result_id
      (mkState t dl (pre ++ (result_id, p) :: post) tr)
    = wait_for_completion G W f result_id p
        (mkState t dl (post ++ pre) (tr ++ rotation pre ++ [EvGet (result_id, p)])).
Proof.
  induction pre as [ | i pre IH]; intros post f t dl tr Hpre.
  - simpl List.length. simpl plus.
    rewrite (process_queued_item_head_match f result_id p _ post) by reflexivity.
    unfold log, set_queue. simpl. rewrite app_nil_r. reflexivity.
  - inversion Hpre as [ | ? ? Hi Hpre']; subst.
    simpl List.length. simpl plus.
    rewrite (process_queued_item_head_mismatch _ result_id i _
               (pre ++ (result_id, p) :: post)) by (auto; reflexivity).
    unfold log, set_queue. simpl.
    rewrite <- app_assoc. simpl.
    rewrite IH by assumption.
    rewrite <- !app_assoc. simpl. reflexivity.
Qed.

(** Without an item for [result_id] the consumer never returns: it blocks
    on the empty queue, or goes round the queue as long as it runs. *)
Lemma process_queued_item_no_match (result_id : nat) :
  forall fuel s,
    deadline s = None ->
    Forall (fun i => fst i <> result_id) (queue s) ->
    fst (process_queued_item G W fuel result_id s)
    = match queue s, fuel with
      | [], S _ => Hang
      | _, _ => OutOfFuel
      end.
Proof.
  induction fuel as [ | fuel IH]; intros s Hd Hq.
  - simpl. destruct (queue s); reflexivity.
  - destruct (queue s) as [ | i q] eqn:E.
    + simpl. unfold bind, queue_get. rewrite E, Hd. reflexivity.
    + inversion Hq as [ | ? ? Hi Hq']; subst.
      rewrite (process_queued_item_head_mismatch fuel result_id i s q E Hi).
      rewrite IH.
      * simpl. destruct (q ++ [i]) eqn:E2; [ | destruct fuel; reflexivity ].
        destruct q; discriminate.
      * exact Hd.
      * simpl. apply Forall_app. auto.
Qed.

End Rotation.

(** ** One pass of the polling loop *)

(** The test [result and result['completeTime']]. *)
Definition complete (result : option db_row) : bool :=
  match result with
  | Some r => truthy (completeTime r)
  | None => false
  end.

Definition row_triple (result : option db_row) : triple :=
  match result with
  | Some r => (EntryID r, ImageUrl r, ImageDesc r)
  | None => (PNone, PNone, PNone)
  end.

Section Waiting.

Variable G : globals.
Variable W : world.

(** What [poll_once] does, by the answer of the datastore and the
    position of the timer. *)
Lemma poll_once_cases (result_id : nat) (p : pool) (s : state) :
  let d := fst (w_read W (now s) p result_id) in
  let o := fst (poll_once W result_id p s) in
  let s' := snd (poll_once W result_id p s) in
  deadline s' = deadline s /\ queue s' = queue s /\
  if cancelled_by (deadline s) (now s + d) then
    o = Raise CancelledError /\ now s' = now s + d
  else
    match snd (w_read W (now s) p result_id) with
    | AcquireFails e => o = Raise e /\ now s' = now s + d
    | CursorFails e => o = Raise e /\ now s' = now s + d
    | QueryFails e => o = Raise e /\ now s' = now s + d
    | Fetched row =>
        if complete row then o = Ret (Some (row_triple row)) /\ now s' = now s + d
        else if cancelled_by (deadline s) (now s + d + 5) then
               o = Raise CancelledError
               /\ exists dl, deadline s = Some dl /\ now s' = Nat.max (now s + d) dl
             else o = Ret None /\ now s' = now s + d + 5
    end.
Proof.
  destruct s as [t dl q tr].
  unfold poll_once, run_in_executor, get_task_status, bind. simpl.
  destruct (w_read W t p result_id) as [d r]. simpl.
  destruct (cancelled_by dl (t + d)) eqn:C.
  - destruct r; simpl; auto.
  - destruct r as [e | e | e | [row | ]]; simpl; auto.
    + destruct (truthy (completeTime row)); simpl; auto.
      unfold sleep. simpl.
      destruct (cancelled_by dl (t + d + 5)) eqn:C5.
      * destruct dl as [dl | ]; [ simpl; eauto 6 | discriminate ].
      * simpl. auto.
    + unfold sleep. simpl.
      destruct (cancelled_by dl (t + d + 5)) eqn:C5.
      * destruct dl as [dl | ]; [ simpl; eauto 6 | discriminate ].
      * simpl. auto.
Qed.

(** The handler of [poll_database] on an exception that is not a pool
    exhaustion: the exception, or the [NameError] of the clause, leaves
    the coroutine. *)
Definition escaping (e : exn) : exn :=
  if PoolError_bound G then e else NameError "PoolError".

Lemma except_PoolError_CancelledError (hand_off : M triple) (s : state) :
  except_PoolError G CancelledError hand_off s = (Raise (escaping CancelledError), s).
Proof.
  unfold except_PoolError, escaping. destruct (PoolError_bound G); reflexivity.
Qed.

Lemma except_PoolError_terminated (e : exn) (hand_off : M triple) (s : state) :
  terminated (fst (hand_off s)) ->
  terminated (fst (except_PoolError G e hand_off s)).
Proof.
  intros H. unfold except_PoolError.
  destruct (PoolError_bound G); [ | exact I ].
  destruct e; try exact I.
  destruct (str_contains _ _); [ exact H | exact I ].
Qed.

(** *** A wait whose row never completes *)

Definition never_complete (p : pool) (result_id : nat) : Prop :=
  forall t, exists d row,
    w_read W t p result_id = (d, Fetched row) /\ complete row = false.

Lemma poll_database_never_complete (result_id : nat) (p : pool) :
  never_complete p result_id ->
  forall fuel s dl,
    deadline s = Some dl ->
    dl - now s < fuel ->
    exists s',
      poll_database G W fuel result_id p s = (Raise (escaping CancelledError), s')
      /\ dl <= now s' /\ deadline s' = Some dl /\ queue s' = queue s.
Proof.
  intros Hnc. induction fuel as [ | fuel IH]; intros s dl Hd Hf; [ lia | ].
  simpl.
  pose proof (poll_once_cases result_id p s) as H. simpl in H.
  destruct (Hnc (now s)) as [d [row [Hr Hrow]]].
  rewrite Hr, Hd in H. simpl in H. rewrite Hrow in H.
  destruct (poll_once W result_id p s) as [o s1]. simpl in H.
  destruct H as [Hd1 [Hq1 H]].
  destruct (dl <=? now s + d) eqn:C.
  - destruct H as [Ho Hn]. subst o.
    rewrite except_PoolError_CancelledError.
    apply Nat.leb_le in C. exists s1. repeat split; auto; lia.
  - apply Nat.leb_gt in C.
    destruct (dl <=? now s + d + 5) eqn:C5.
    + destruct H as [Ho [dl' [Hdl' Hn]]]. subst o. inversion Hdl'; subst dl'.
      rewrite except_PoolError_CancelledError.
      exists s1. repeat split; auto; lia.
    + apply Nat.leb_gt in C5. destruct H as [Ho Hn]. subst o.
      destruct (IH s1 dl Hd1) as [s' [E [Hn' [Hd' Hq']]]]; [ lia | ].
      exists s'. rewrite E. repeat split; auto. congruence.
Qed.

(** Outside any other timer, the wait ends at its own deadline: with the
    sentinel when [PoolError] is bound, with the [NameError] of the
    [except] clause when it is not. *)
Lemma wait_for_completion_never_complete (result_id : nat) (p : pool) :
  never_complete p result_id ->
  forall fuel s,
    deadline s = None ->
    1801 < fuel ->
    exists s',
      wait_for_completion G W fuel result_id p s
      = (if PoolError_bound G then Ret (PNone, PNone, PNone)
         else Raise (NameError "PoolError"), s')
      /\ now s + 1800 <= now s' /\ deadline s' = None /\ queue s' = queue s.
Proof.
  intros Hnc fuel s Hd Hf.
  destruct fuel as [ | fuel]; [ lia | ].
  simpl. unfold bind at 1, emit, try_except, wait_for. simpl.
  rewrite Hd.
  destruct (poll_database_never_complete result_id p Hnc fuel
              (set_deadline (Some (now s + 1800)) (log [EvWait result_id p] s))
              (now s + 1800) eq_refl) as [s' [E [Hn [Hd' Hq]]]].
  { simpl. lia. }
  simpl in E. rewrite E. unfold escaping.
  destruct (PoolError_bound G); simpl; eexists; (split; [ reflexivity | ]);
    simpl; auto.
Qed.

End Waiting.

(** ** Termination of the completion wait *)

(** The timer under which [wait_for_completion] runs its loop: its own,
    1800 units ahead, unless an enclosing one comes no later. *)
Definition wait_deadline (s : state) : nat :=
  match deadline s with
  | Some d => if now s + 1800 <? d then now s + 1800 else d
  | None => now s + 1800
  end.

Lemma wait_deadline_le (s : state) : wait_deadline s <= now s + 1800.
Proof.
  unfold wait_deadline. destruct (deadline s) as [d | ]; [ | lia ].
  destruct (now s + 1800 <? d) eqn:E; [ lia | ].
  apply Nat.ltb_ge in E. exact E.
Qed.

Lemma wait_deadline_le_outer (s : state) (d : nat) :
  deadline s = Some d -> wait_deadline s <= d.
Proof.
  intros H. unfold wait_deadline. rewrite H.
  destruct (now s + 1800 <? d) eqn:E; [ | lia ].
  apply Nat.ltb_lt in E. lia.
Qed.

Section Termination.

Variable G : globals.
Variable W : world.

Lemma wait_for_completion_unfold (f result_id : nat) (p : pool) (s : state) :
  wait_for_completion G W (S f) result_id p s
  = let own := match deadline s with
               | Some d => now s + 1800 <? d
               | None => true
               end in
    match poll_database G W f result_id p
            (set_deadline (Some (wait_deadline s)) (log [EvWait result_id p] s)) with
    | (Raise CancelledError, s') =>
        if own then (Ret (PNone, PNone, PNone), set_deadline (deadline s) s')
        else (Raise CancelledError, set_deadline (deadline s) s')
    | (Raise TimeoutError, s') =>
        (Ret (PNone, PNone, PNone), set_deadline (deadline s) s')
    | (o, s') => (o, set_deadline (deadline s) s')
    end.
Proof.
  simpl. unfold bind at 1, emit, try_except, wait_for, wait_deadline. simpl.
  destruct (deadline s) as [d | ]; simpl.
  - destruct (now s + 1800 <? d); simpl;
      match goal with
      | |- context [poll_database G W f result_id p ?s0] =>
          destruct (poll_database G W f result_id p s0) as [[a | [ | | | | ] | | ] s']
      end; reflexivity.
  - match goal with
    | |- context [poll_database G W f result_id p ?s0] =>
        destruct (poll_database G W f result_id p s0) as [[a | [ | | | | ] | | ] s']
    end; reflexivity.
Qed.

Lemma wait_for_completion_terminated_of_poll (f result_id : nat) (p : pool)
      (s : state) :
  terminated (fst (poll_database G W f result_id p
                     (set_deadline (Some (wait_deadline s))
                                   (log [EvWait result_id p] s)))) ->
  terminated (fst (wait_for_completion G W (S f) result_id p s)).
Proof.
  rewrite wait_for_completion_unfold. simpl.
  destruct (poll_database G W f result_id p _) as [[a | [ | | | | ] | | ] s'];
    simpl; auto.
  destruct (deadline s) as [d | ]; [ destruct (now s + 1800 <? d) | ]; simpl; auto.
Qed.

(** Every run of [get_task_status] takes time. *)
Hypothesis reads_take_time : forall t p r, 1 <= fst (w_read W t p r).

Lemma poll_database_terminates :
  forall r fuel result_id p s dl,
    deadline s = Some dl ->
    dl <= now s + r ->
    (r + 1) * (List.length (queue s) + 4) <= fuel ->
    terminated (fst (poll_database G W fuel result_id p s)).
Proof.
  induction r as [r IH] using lt_wf_ind.
  intros fuel result_id p s dl Hd Hr Hf.
  destruct fuel as [ | f]; [ lia | ].
  assert (Hf' : r * (List.length (queue s) + 4) + List.length (queue s) + 3 <= f) by lia.
  clear Hf. simpl.
  pose proof (poll_once_cases W result_id p s) as H. simpl in H.
  pose proof (reads_take_time (now s) p result_id) as Hpos.
  destruct (w_read W (now s) p result_id) as [d res]. simpl in H, Hpos.
  rewrite Hd in H. simpl in H.
  destruct (poll_once W result_id p s) as [o s1]. simpl in H.
  destruct H as [Hd1 [Hq1 H]].
  destruct (dl <=? now s + d) eqn:C.
  { destruct H as [Ho Hn]. subst o. rewrite except_PoolError_CancelledError. exact I. }
  apply Nat.leb_gt in C.
  assert (Hhand : forall e, o = Raise e -> now s1 = now s + d ->
            terminated (fst (except_PoolError G e
              (queue_put (result_id, p) ;;; process_queued_item G W f result_id) s1))).
  { intros e _ Hn. apply except_PoolError_terminated.
    unfold bind, queue_put. simpl.
    destruct (first_match_Exists result_id (queue s1 ++ [(result_id, p)]))
      as [pre [p' [post Hm]]].
    { apply Exists_app. right. constructor. reflexivity. }
    apply first_match_Some in Hm. destruct Hm as [Hq Hpre].
    assert (Hlen : List.length pre + List.length post = List.length (queue s)).
    { apply (f_equal (@List.length item)) in Hq.
      rewrite !length_app in Hq. simpl in Hq. rewrite Hq1 in Hq. lia. }
    match goal with
    | |- context [process_queued_item G W f result_id ?s0] =>
        assert (Hs : s0 = mkState (now s1) (deadline s1)
                           (pre ++ (result_id, p') :: post)
                           (trace s1 ++ [EvPut (result_id, p)]))
          by (unfold log, set_queue; simpl; f_equal; exact Hq);
        rewrite Hs
    end.
    replace f with (List.length pre + S (S (f - List.length pre - 2))) by lia.
    rewrite process_queued_item_rotates by assumption.
    apply wait_for_completion_terminated_of_poll.
    match goal with
    | |- context [wait_deadline ?s0] =>
        pose proof (wait_deadline_le_outer s0 dl Hd1) as Hwd;
        set (wd := wait_deadline s0) in *
    end.
    apply (IH (r - 1)) with (dl := wd); [ lia | reflexivity | simpl; lia | ].
    simpl. rewrite length_app.
    clear Hs Hwd. clearbody wd. unfold item in *.
    rewrite (Nat.add_comm (List.length post)), Hlen.
    replace (r - 1 + 1) with r by lia. lia. }
  destruct res as [e | e | e | row].
  - destruct H as [Ho Hn]. subst o. apply Hhand; auto.
  - destruct H as [Ho Hn]. subst o. apply Hhand; auto.
  - destruct H as [Ho Hn]. subst o. apply Hhand; auto.
  - destruct (complete row).
    + destruct H as [Ho Hn]. subst o. exact I.
    + destruct (dl <=? now s + d + 5) eqn:C5.
      * destruct H as [Ho _]. subst o.
        rewrite except_PoolError_CancelledError. exact I.
      * apply Nat.leb_gt in C5. destruct H as [Ho Hn]. subst o.
        apply (IH (r - 1)) with (dl := dl); [ lia | exact Hd1 | lia | ].
        rewrite Hq1. replace (r - 1 + 1) with r by lia.
        remember (r * (List.length (queue s) + 4)) as budget. lia.
Qed.

Definition wait_fuel (queued : nat) : nat := 1801 * (queued + 4) + 1.

Lemma wait_for_completion_terminates (fuel result_id : nat) (p : pool) (s : state) :
  wait_fuel (List.length (queue s)) <= fuel ->
  terminated (fst (wait_for_completion G W fuel result_id p s)).
Proof.
  unfold wait_fuel. intros Hf.
  destruct fuel as [ | f]; [ lia | ].
  apply wait_for_completion_terminated_of_poll.
  match goal with
  | |- context [poll_database G W f result_id p ?s0] =>
      apply (poll_database_terminates 1800 f result_id p s0 (wait_deadline s))
  end.
  - reflexivity.
  - simpl. apply wait_deadline_le.
  - simpl. lia.
Qed.

End Termination.

(** ** The wait seen from its caller *)

Section Caller.

Variable G : globals.
Variable W : world.

(** Called outside any timer, [wait_for_completion] never lets a
    cancellation through, and leaves no timer behind. *)
Lemma wait_for_completion_not_cancelled (f result_id : nat) (p : pool) (s : state) :
  deadline s = None ->
  fst (wait_for_completion G W (S f) result_id p s) <> Raise CancelledError
  /\ deadline (snd (wait_for_completion G W (S f) result_id p s)) = None.
Proof.
  intros Hd. rewrite wait_for_completion_unfold. rewrite Hd. simpl.
  destruct (poll_database G W f result_id p _) as [[a | [ | | | | ] | | ] s'];
    simpl; split; congruence.
Qed.

(** A completed row at the first read is returned at once. *)
Lemma wait_for_completion_first_read (f result_id : nat) (p : pool) (s : state)
      (d : nat) (r : db_row) :
  deadline s = None ->
  w_read W (now s) p result_id = (d, Fetched (Some r)) ->
  truthy (completeTime r) = true ->
  d < 1800 ->
  wait_for_completion G W (S (S f)) result_id p s
  = (Ret (EntryID r, ImageUrl r, ImageDesc r),
     log [EvWait result_id p; EvGetConnection p; EvSelect result_id; EvClose p]
         (set_now (now s + d) s)).
Proof.
  intros Hd Hr Ht Hlt.
  rewrite wait_for_completion_unfold. simpl poll_database.
  destruct s as [t dl q tr]. simpl in *. subst dl.
  unfold poll_once, run_in_executor, get_task_status, bind, wait_deadline. simpl.
  rewrite Hr. simpl.
  replace (t + 1800 <=? t + d) with false by (symmetry; apply Nat.leb_gt; lia).
  rewrite Ht. unfold ret, log, set_deadline, set_now. simpl.
  rewrite <- app_assoc. reflexivity.
Qed.

(** With [PoolError] bound, a pool exhaustion queues the wait and hands
    it to [process_queued_item] (lines 110-113). *)
Lemma poll_database_hands_off (f result_id : nat) (p : pool) (s : state)
      (d : nat) (msg : string) :
  PoolError_bound G = true ->
  w_read W (now s) p result_id = (d, AcquireFails (PoolError msg)) ->
  str_contains "pool exhausted" msg = true ->
  cancelled_by (deadline s) (now s + d) = false ->
  poll_database G W (S f) result_id p s
  = process_queued_item G W f result_id
      (log [EvPut (result_id, p)]
           (set_queue (queue s ++ [(result_id, p)]) (set_now (now s + d) s))).
Proof.
  intros Hb Hr Hc Hn. simpl poll_database.
  unfold poll_once, run_in_executor, get_task_status, bind at 1.
  rewrite Hr. simpl. rewrite Hn.
  unfold except_PoolError. rewrite Hb, Hc.
  unfold bind, queue_put, log, set_queue, set_now. simpl.
  rewrite app_nil_r. reflexivity.
Qed.

(** Without [PoolError] bound, whatever is raised in the [try] of
    [poll_database] leaves [wait_for_completion] as a [NameError]. *)
Lemma wait_for_completion_read_fails_unbound (f result_id : nat) (p : pool)
      (s : state) (d : nat) (res : read_result) :
  PoolError_bound G = false ->
  deadline s = None ->
  w_read W (now s) p result_id = (d, res) ->
  (forall row, res <> Fetched row) ->
  wait_for_completion G W (S (S f)) result_id p s
  = (Raise (NameError "PoolError"),
     log (EvWait result_id p :: fst (get_task_status W (now s) result_id p))
         (set_now (now s + d) s)).
Proof.
  intros Hb Hd Hr Hres.
  rewrite wait_for_completion_unfold. simpl poll_database.
  destruct s as [t dl q tr]. simpl in *. subst dl.
  unfold poll_once, run_in_executor, get_task_status, bind, except_PoolError.
  simpl. rewrite Hr, Hb. simpl.
  destruct res as [e | e | e | row]; [ | | | exfalso; exact (Hres row eq_refl) ];
    match goal with
    | |- context [if ?c then _ else _] => destruct c
    end; simpl;
    unfold raise, log, set_deadline, set_now; simpl;
    rewrite <- ?app_assoc, ?app_nil_r; reflexivity.
Qed.

(** A read that finds the row complete ends the loop. *)
Lemma poll_database_complete (f result_id : nat) (p : pool) (s : state)
      (d : nat) (row : option db_row) :
  w_read W (now s) p result_id = (d, Fetched row) ->
  complete row = true ->
  cancelled_by (deadline s) (now s + d) = false ->
  poll_database G W (S f) result_id p s
  = (Ret (row_triple row),
     log [EvGetConnection p; EvSelect result_id; EvClose p]
         (set_now (now s + d) s)).
Proof.
  intros Hr Hc Hn. simpl poll_database.
  unfold poll_once, run_in_executor, get_task_status, bind.
  rewrite Hr. simpl. rewrite Hn.
  destruct row as [r | ]; [ | discriminate ]. simpl in Hc. rewrite Hc.
  reflexivity.
Qed.

(** The same from [wait_for_completion], under any timer that leaves the
    read its time. *)
Lemma wait_for_completion_complete_read (f result_id : nat) (p : pool) (s : state)
      (d : nat) (row : option db_row) :
  w_read W (now s) p result_id = (d, Fetched row) ->
  complete row = true ->
  cancelled_by (Some (wait_deadline s)) (now s + d) = false ->
  wait_for_completion G W (S (S f)) result_id p s
  = (Ret (row_triple row),
     log [EvWait result_id p; EvGetConnection p; EvSelect result_id; EvClose p]
         (set_now (now s + d) s)).
Proof.
  intros Hr Hc Hn. rewrite wait_for_completion_unfold.
  rewrite (poll_database_complete f result_id p _ d row) by (simpl; assumption).
  destruct s as [t dl q tr]. unfold log, set_now, set_deadline. simpl.
  rewrite <- app_assoc. reflexivity.
Qed.

End Caller.

(** ** The row processor *)

(** The remote client and the datastore driver fail with instances of
    [Exception]: a cancellation never originates in them. *)
Definition raises_Exceptions (W : world) : Prop :=
  (forall t body d e, w_create W t body = (d, Fails e) -> is_Exception e = true)
  /\ (forall sql c e, w_insert W sql c = Some e -> is_Exception e = true).

(** A result dictionary that echoes the row. *)
Definition echoes (row : dict pyval) (r : dict field) : Prop :=
  lookup "absoluteRowIndex" r = Some (FVal (dict_get row "absoluteRowIndex"))
  /\ lookup "originalSearchValue" r = Some (FVal (dict_get row "searchValue")).

Lemma row_result_echoes (row : dict pyval) (k : string) (v : field) :
  k = "result" \/ k = "error" ->
  echoes row (row_result k v (dict_get row "absoluteRowIndex")
                         (dict_get row "searchValue")).
Proof.
  intros [E | E]; subst k; split; reflexivity.
Qed.

Ltac insert_steps W :=
  repeat match goal with
         | |- context [w_insert W ?q ?c] =>
             let E := fresh "E" in
             destruct (w_insert W q c) as [?e | ] eqn:E; simpl
         end.

Section RowProcessor.

Variable G : globals.
Variable W : world.

Hypothesis reads_take_time : forall t p r, 1 <= fst (w_read W t p r).
Hypothesis world_raises_Exceptions : raises_Exceptions W.

Lemma process_row_returns (fuel : nat) (row : dict pyval) (uniqueid : pyval)
      (s : state) :
  deadline s = None ->
  wait_fuel 0 <= fuel ->
  exists r s',
    process_row G W fuel row uniqueid s = (Ret r, s') /\ echoes row r.
Proof.
  intros Hd Hf. destruct world_raises_Exceptions as [Hc Hi].
  destruct s as [t dl q tr]. simpl in Hd. subst dl.
  unfold process_row, except_Exception, try_except, create_image_task, bind at 1.
  simpl.
  destruct (w_create W t _) as [d [[resp | ] | e]] eqn:Ec;
    unfold bind, emit, suspend, json_get, load_global_connection_pool; simpl.
  - (* a dictionary came back *)
    destruct (global_connection_pool G) as [p | ]; simpl;
      [ | eexists; eexists; split; [ reflexivity | apply row_result_echoes; auto ] ].
    unfold db_step, emit, raise; simpl.
    insert_steps W;
      try (match goal with
           | H : w_insert W _ _ = Some ?e |- _ => rewrite (Hi _ _ _ H)
           end;
           eexists; eexists; split; [ reflexivity | apply row_result_echoes; auto ]).
    destruct (truthy (dict_get resp "task_id")); simpl;
      [ | eexists; eexists; split; [ reflexivity | apply row_result_echoes; auto ] ].
    destruct fuel as [ | f]; [ unfold wait_fuel in Hf; lia | ].
    match goal with
    | |- context [wait_for_completion G W (S f) ?r ?p ?s0] =>
        pose proof (wait_for_completion_terminates G W reads_take_time
                      (S f) r p s0 Hf) as Ht;
        pose proof (wait_for_completion_not_cancelled G W f r p s0 eq_refl)
          as [Hn _];
        destruct (wait_for_completion G W (S f) r p s0)
          as [[[[entry_id image_url] image_desc] | e | | ] s1]
    end; simpl in Ht, Hn; try contradiction.
    + destruct (is_not_None entry_id && is_not_None image_url
                && is_not_None image_desc);
        eexists; eexists; (split; [ reflexivity | apply row_result_echoes; auto ]).
    + destruct e; simpl; try congruence;
        eexists; eexists; (split; [ reflexivity | apply row_result_echoes; auto ]).
  - (* the body was not a dictionary *)
    eexists; eexists; split; [ reflexivity | apply row_result_echoes; auto ].
  - (* the call raised *)
    rewrite (Hc _ _ _ _ Ec).
    eexists; eexists; split; [ reflexivity | apply row_result_echoes; auto ].
Qed.

End RowProcessor.

(** ** Polling the remote service *)

Definition timeout_result : dict pyval :=
  [("error", PStr "Polling timeout reached. Task abandoned.")].

Definition failed_result : dict pyval :=
  [("error", PStr "Task failed or encountered an error")].

(** A poll answer that decides nothing: a dictionary whose status is
    none of "Completed", "Failed" and "Error". *)
Definition inconclusive (r : reply json) : Prop :=
  exists data status,
    r = Ok (JDict data)
    /\ lookup "status" data = Some status
    /\ pyval_eqb status (PStr "Completed") = false
    /\ pyval_eqb status (PStr "Failed") = false
    /\ pyval_eqb status (PStr "Error") = false.

Section Polling.

Variable W : world.
Variable task_id : pyval.
Variable interval : Z.

(** The state after one round that decided nothing: the request, then
    the sleep of [POLL_INTERVAL]. *)
Definition poll_round (s : state) : state :=
  let d := fst (w_poll W (now s) task_id) in
  mkState (now s + d + Z.to_nat interval) (deadline s) (queue s)
          (trace s ++ [EvPoll task_id; EvSleep (Z.to_nat interval)]).

Definition poll_rounds (k : nat) (s : state) : state := Nat.iter k poll_round s.

Lemma poll_rounds_S (k : nat) (s : state) :
  poll_rounds (S k) s = poll_rounds k (poll_round s).
Proof.
  unfold poll_rounds. induction k as [ | k IH]; [ reflexivity | ].
  simpl in *. rewrite IH. reflexivity.
Qed.

Lemma poll_round_deadline (s : state) : deadline (poll_round s) = deadline s.
Proof. reflexivity. Qed.

Lemma poll_round_now (s : state) : now s + Z.to_nat interval <= now (poll_round s).
Proof. simpl. lia. Qed.

Hypothesis interval_set : w_poll_interval W = Ok interval.

Lemma poll_loop_timeout (fuel timeout start_time : nat) (s : state) :
  timeout < now s - start_time ->
  poll_loop W (S fuel) task_id timeout start_time s = (Ret timeout_result, s).
Proof.
  intros H. simpl. apply Nat.ltb_lt in H. rewrite H. reflexivity.
Qed.

Lemma poll_loop_round (fuel timeout start_time : nat) (s : state) :
  deadline s = None ->
  now s - start_time <= timeout ->
  inconclusive (snd (w_poll W (now s) task_id)) ->
  poll_loop W (S fuel) task_id timeout start_time s
  = poll_loop W fuel task_id timeout start_time (poll_round s).
Proof.
  intros Hd Ht [data [status [Hr [Hs [H1 [H2 H3]]]]]].
  simpl. apply Nat.ltb_ge in Ht. rewrite Ht.
  unfold poll_round.
  destruct (w_poll W (now s) task_id) as [d r]. simpl in Hr. subst r.
  unfold bind, emit, suspend, json_subscript. simpl. rewrite Hd. simpl.
  rewrite Hs. unfold ret. rewrite H1, H2, H3. simpl.
  rewrite interval_set. unfold sleep. simpl. rewrite Hd. simpl.
  unfold log, set_now. simpl. rewrite <- app_assoc, Hd. reflexivity.
Qed.

Lemma poll_loop_completed (fuel timeout start_time : nat) (s : state) (d : nat)
      (data : dict pyval) :
  deadline s = None ->
  now s - start_time <= timeout ->
  w_poll W (now s) task_id = (d, Ok (JDict data)) ->
  lookup "status" data = Some (PStr "Completed") ->
  poll_loop W (S fuel) task_id timeout start_time s
  = (Ret data, set_now (now s + d) (log [EvPoll task_id] s)).
Proof.
  intros Hd Ht Hr Hs.
  simpl. apply Nat.ltb_ge in Ht. rewrite Ht, Hr.
  unfold bind, emit, suspend, json_subscript. simpl. rewrite Hd. simpl.
  rewrite Hs. reflexivity.
Qed.

Lemma poll_loop_failed (fuel timeout start_time : nat) (s : state) (d : nat)
      (data : dict pyval) :
  deadline s = None ->
  now s - start_time <= timeout ->
  w_poll W (now s) task_id = (d, Ok (JDict data)) ->
  lookup "status" data = Some (PStr "Failed")
  \/ lookup "status" data = Some (PStr "Error") ->
  poll_loop W (S fuel) task_id timeout start_time s
  = (Ret failed_result, set_now (now s + d) (log [EvPoll task_id] s)).
Proof.
  intros Hd Ht Hr Hs.
  simpl. apply Nat.ltb_ge in Ht. rewrite Ht, Hr.
  unfold bind, emit, suspend, json_subscript. simpl. rewrite Hd. simpl.
  destruct Hs as [Hs | Hs]; rewrite Hs; reflexivity.
Qed.

(** After [k] rounds that decided nothing the loop is at its head again. *)
Lemma poll_loop_rounds (timeout start_time : nat) :
  forall k fuel s,
    deadline s = None ->
    (forall j, j < k ->
       now (poll_rounds j s) - start_time <= timeout
       /\ inconclusive (snd (w_poll W (now (poll_rounds j s)) task_id))) ->
    poll_loop W (k + fuel) task_id timeout start_time s
    = poll_loop W fuel task_id timeout start_time (poll_rounds k s).
Proof.
  induction k as [ | k IH]; intros fuel s Hd H; [ reflexivity | ].
  destruct (H 0) as [H0 H0']; [ lia | ].
  simpl plus. rewrite poll_loop_round by assumption.
  rewrite poll_rounds_S. apply IH; [ exact Hd | ].
  intros j Hj. rewrite <- poll_rounds_S. apply H. lia.
Qed.

(** When no answer ever decides and the interval is positive, the loop
    ends on the ceiling. *)
Lemma poll_loop_gives_up (timeout start_time : nat) :
  (0 < interval)%Z ->
  (forall t, inconclusive (snd (w_poll W t task_id))) ->
  forall fuel s,
    deadline s = None ->
    start_time <= now s ->
    timeout + 1 - (now s - start_time) < fuel ->
    exists s',
      poll_loop W fuel task_id timeout start_time s = (Ret timeout_result, s')
      /\ timeout < now s' - start_time.
Proof.
  intros Hi Hw. induction fuel as [ | fuel IH]; intros s Hd Hs Hf; [ lia | ].
  destruct (Nat.ltb timeout (now s - start_time)) eqn:E.
  - apply Nat.ltb_lt in E. rewrite poll_loop_timeout by exact E. eauto.
  - apply Nat.ltb_ge in E. rewrite poll_loop_round by auto.
    pose proof (poll_round_now s) as Hn.
    apply IH; [ rewrite poll_round_deadline; exact Hd | lia | lia ].
Qed.

End Polling.

(** ** The row processor, step by step *)

(** The body [process_row] sends to the remote service (line 167). *)
Definition dataset_split (row : dict pyval) (uniqueid : pyval) : list string :=
  [py_str (dict_get row "brandValue"); py_str (dict_get row "searchValue");
   py_str (dict_get row "absoluteRowIndex"); py_str uniqueid].

(** The statement [process_row] executes for a row (line 173). *)
Definition row_insert (row : dict pyval) (uniqueid : pyval) : string :=
  insert_query (dict_get row "absoluteRowIndex") uniqueid (dict_get row "searchValue").

(** The result [process_row] builds around an error message. *)
Definition error_result (row : dict pyval) (msg : string) : dict field :=
  row_result "error" (FVal (PStr msg))
             (dict_get row "absoluteRowIndex") (dict_get row "searchValue").




Definition is_wait (ev : event) : bool :=
  match ev with
  | EvWait _ _ => true
  | _ => false
  end.

Section RowSteps.

Variable G : globals.
Variable W : world.

Lemma process_row_create_raises (fuel : nat) (row : dict pyval) (uniqueid : pyval)
      (s : state) (d : nat) (e : exn) :
  deadline s = None ->
  w_create W (now s) (dataset_split row uniqueid) = (d, Fails e) ->
  is_Exception e = true ->
  process_row G W fuel row uniqueid s
  = (Ret (error_result row (exn_str e)),
     set_now (now s + d) (log [EvPost (dataset_split row uniqueid)] s)).
Proof.
  intros Hd Hc He. destruct s as [t dl q tr]. simpl in *. subst dl.
  unfold process_row, except_Exception, try_except, create_image_task, bind at 1.
  simpl. unfold dataset_split in Hc. rewrite Hc.
  unfold bind, emit, suspend. simpl. rewrite He. reflexivity.
Qed.


(** No usable task id and an insert that goes through. *)
Lemma process_row_failed_to_start (fuel : nat) (row : dict pyval) (uniqueid : pyval)
      (s : state) (d : nat) (resp : dict pyval) (p : pool) :
  deadline s = None ->
  w_create W (now s) (dataset_split row uniqueid) = (d, Ok (JDict resp)) ->
  truthy (dict_get resp "task_id") = false ->
  global_connection_pool G = Some p ->
  (forall c, w_insert W (row_insert row uniqueid) c = None) ->
  process_row G W fuel row uniqueid s
  = (Ret (error_result row "Failed to start task."),
     set_now (now s + d)
       (log [EvPost (dataset_split row uniqueid); EvGetConnection p;
             EvInsert (row_insert row uniqueid); EvCommit; EvClose p] s)).
Proof.
  intros Hd Hc Ht Hp Hi. destruct s as [t dl q tr]. simpl in *. subst dl.
  unfold process_row, except_Exception, try_except, create_image_task, bind at 1.
  simpl. unfold dataset_split in Hc. rewrite Hc.
  unfold bind, emit, suspend, json_get, load_global_connection_pool. simpl.
  rewrite Ht, Hp. unfold db_step. unfold row_insert in Hi.
  rewrite !Hi. simpl. unfold log, set_now. simpl.
  rewrite <- !app_assoc. reflexivity.
Qed.

(** Without [global_connection_pool] bound, nothing goes beyond the
    remote call. *)
Lemma process_row_pool_unbound (fuel : nat) (row : dict pyval) (uniqueid : pyval)
      (s : state) (d : nat) (resp : dict pyval) :
  deadline s = None ->
  global_connection_pool G = None ->
  w_create W (now s) (dataset_split row uniqueid) = (d, Ok (JDict resp)) ->
  process_row G W fuel row uniqueid s
  = (Ret (error_result row "name 'global_connection_pool' is not defined"),
     set_now (now s + d) (log [EvPost (dataset_split row uniqueid)] s)).
Proof.
  intros Hd Hp Hc. destruct s as [t dl q tr]. simpl in *. subst dl.
  unfold process_row, except_Exception, try_except, create_image_task, bind at 1.
  simpl. unfold dataset_split in Hc. rewrite Hc.
  unfold bind, emit, suspend, json_get, load_global_connection_pool. simpl.
  rewrite Hp. reflexivity.
Qed.


End RowSteps.

(** ** Concrete worlds *)

Definition nike_row : dict pyval :=
  [("brandValue", PStr "Nike"); ("searchValue", PStr "red shoes");
   ("absoluteRowIndex", PInt 7)].

Definition batch1 : pyval := PStr "batch1".

Definition idle : state := mkState 0 None [] [].

(** Both names bound, as the commented lines would bind them. *)
Definition bound_globals : globals :=
  {| PoolError_bound := true; global_connection_pool := Some 0 |}.

Definition shoe_row (complete_time : pyval) : db_row :=
  mkRow complete_time (PInt 7) (PStr "http://x/img.jpg") (PStr "shoe").

(** A world that creates task "t1", inserts as row 42, answers every read
    with [res] after one time unit, and reports the remote task
    completed. *)
Definition world_reading (res : read_result) : world :=
  {| w_create := fun _ _ => (1, Ok (JDict [("task_id", PStr "t1")]));
     w_insert := fun _ _ => None;
     w_lastrowid := 42;
     w_read := fun _ _ _ => (1, res);
     w_poll := fun _ _ => (1, Ok (JDict [("status", PStr "Completed");
                                           ("url", PStr "http://x/img.jpg")]));
     w_poll_interval := Ok 60%Z |}.

Definition world_done : world := world_reading (Fetched (Some (shoe_row (PInt 3)))).
Definition world_pending : world := world_reading (Fetched (Some (shoe_row PNone))).
Definition world_absent : world := world_reading (Fetched None).
Definition world_exhausted : world :=
  world_reading (AcquireFails (PoolError "Failed getting connection; pool exhausted")).

(** The remote service as [answer]s it, over a datastore whose INSERT
    fails as [failure] says. *)
Definition world_creating (answer : reply json) (failure : db_call -> option exn)
  : world :=
  {| w_create := fun _ _ => (1, answer);
     w_insert := fun _ => failure;
     w_lastrowid := 42;
     w_read := fun _ _ _ => (1, Fetched None);
     w_poll := fun _ _ => (1, Ok (JDict [("status", PStr "Pending")]));
     w_poll_interval := Ok 60%Z |}.

Definition execute_fails (c : db_call) : option exn :=
  match c with
  | CExecute => Some (OtherError "1064 (42000): You have an error in your SQL syntax")
  | _ => None
  end.

(** ** Worlds that change with time *)

(** Row 42 is completed by the external writer at time 3; every read
    takes one time unit. *)
Definition world_completing : world :=
  {| w_create := fun _ _ => (1, Ok (JDict [("task_id", PStr "t1")]));
     w_insert := fun _ _ => None;
     w_lastrowid := 42;
     w_read := fun t _ _ =>
       (1, Fetched (Some (shoe_row (if t <? 3 then PNone else PInt 3))));
     w_poll := fun _ _ => (1, Ok (JDict [("status", PStr "Pending")]));
     w_poll_interval := Ok 60%Z |}.

(** The pool is exhausted at time 0 and serves a completed row later. *)
Definition world_recovering : world :=
  {| w_create := fun _ _ => (1, Ok (JDict [("task_id", PStr "t1")]));
     w_insert := fun _ _ => None;
     w_lastrowid := 42;
     w_read := fun t _ _ =>
       if t =? 0
       then (1, AcquireFails (PoolError "Failed getting connection; pool exhausted"))
       else (1, Fetched (Some (shoe_row (PInt 3))));
     w_poll := fun _ _ => (1, Fails (OtherError "connection refused"));
     w_poll_interval := Fails (OtherError "int() argument must be a string") |}.

Lemma world_reading_takes_time (res : read_result) :
  forall t p r, 1 <= fst (w_read (world_reading res) t p r).
Proof. intros. simpl. lia. Qed.

Lemma world_reading_raises_Exceptions (res : read_result) :
  raises_Exceptions (world_reading res).
Proof. split; intros; simpl in *; discriminate. Qed.

(** The scenario of the specification: row 7 of batch1, task "t1", row 42
    completed with the image of a shoe. *)
Example process_row_scenario :
  fst (process_row bound_globals world_done 3 nike_row batch1 idle)
  = Ret [("result", FDict [("url", PStr "http://x/img.jpg")]);
         ("absoluteRowIndex", FVal (PInt 7));
         ("originalSearchValue", FVal (PStr "red shoes"))].
Proof. reflexivity. Qed.

Example process_row_scenario_trace :
  trace (snd (process_row bound_globals world_done 3 nike_row batch1 idle))
  = [EvPost ["Nike"; "red shoes"; "7"; "batch1"];
     EvGetConnection 0;
     EvInsert "INSERT INTO utb_ImageScraperResult (EntryID,FileID,SearchValue) values (7,'batch1', 'red shoes')";
     EvCommit; EvClose 0;
     EvWait 42 0; EvGetConnection 0; EvSelect 42; EvClose 0].
Proof. reflexivity. Qed.

(** The same scenario on the module as written. *)
Example process_row_scenario_as_written :
  fst (process_row utility_globals world_done 3 nike_row batch1 idle)
  = Ret [("error", FVal (PStr "name 'global_connection_pool' is not defined"));
         ("absoluteRowIndex", FVal (PInt 7));
         ("originalSearchValue", FVal (PStr "red shoes"))].
Proof. reflexivity. Qed.

(** Two polls of a pending row: each read takes and closes a connection
    before the sleep. *)
Example wait_for_completion_two_polls :
  trace (snd (wait_for_completion bound_globals world_pending 3 42 0 idle))
  = [EvWait 42 0;
     EvGetConnection 0; EvSelect 42; EvClose 0; EvSleep 5;
     EvGetConnection 0; EvSelect 42; EvClose 0; EvSleep 5].
Proof. reflexivity. Qed.

(** * The properties of the specification *)

(** C1. For every input row, [process_row] returns a result dictionary
    that carries the row's [absoluteRowIndex] (key "absoluteRowIndex")
    and its [searchValue] (key "originalSearchValue"), on the success
    path and on every failure path, and raises nothing: whatever the
    bindings of the module's globals, whatever the remote service, the
    datastore and the pool answer.  [process_row] is called outside any
    timer, the collaborators fail with instances of [Exception], and a
    datastore read takes time. *)
Theorem process_row_always_returns_echo
        (G : globals) (W : world) (fuel : nat) (row : dict pyval)
        (uniqueid : pyval) (s : state) :
  (forall t p r, 1 <= fst (w_read W t p r)) ->
  raises_Exceptions W ->
  deadline s = None ->
  wait_fuel 0 <= fuel ->
  exists r s',
    process_row G W fuel row uniqueid s = (Ret r, s') /\ echoes row r.
Proof.
  intros Hr He Hd Hf. apply process_row_returns; assumption.
Qed.

Lemma process_row_always_returns_echo_witness :
  exists r s',
    process_row bound_globals world_done (wait_fuel 0) nike_row batch1 idle
    = (Ret r, s')
    /\ echoes nike_row r.
Proof.
  apply (process_row_always_returns_echo bound_globals world_done (wait_fuel 0)
           nike_row batch1 idle).
  - intros t p r. simpl. lia.
  - split; intros; simpl in *; discriminate.
  - reflexivity.
  - unfold wait_fuel. lia.
Defined.

(** C2 (the code departs from the claim).  On the module as written, a
    wait whose row stays with a null [completeTime] ends at the 1800-unit
    deadline, not before, and does not hang; but it ends by raising
    [NameError]: the cancellation of the timer reaches
    [except PoolError], whose name is not bound, and the sentinel of
    [except TimeoutError] is never returned. *)
Theorem wait_for_completion_deadline_as_written
        (W : world) (result_id : nat) (p : pool) (fuel : nat) (s : state) :
  (forall t, exists d r,
      w_read W t p result_id = (d, Fetched (Some r)) /\ completeTime r = PNone) ->
  deadline s = None ->
  1801 < fuel ->
  exists s',
    wait_for_completion utility_globals W fuel result_id p s
    = (Raise (NameError "PoolError"), s')
    /\ now s + 1800 <= now s'.
Proof.
  intros Hw Hd Hf.
  destruct (wait_for_completion_never_complete utility_globals W result_id p)
    with (fuel := fuel) (s := s) as [s' [E [Hn _]]]; auto.
  - intros t. destruct (Hw t) as [d [r [Hr Hc]]].
    exists d, (Some r). split; [ exact Hr | ]. simpl. rewrite Hc. reflexivity.
  - exists s'. auto.
Qed.

Lemma wait_for_completion_deadline_as_written_witness :
  exists s',
    wait_for_completion utility_globals world_pending 1802 42 0 idle
    = (Raise (NameError "PoolError"), s')
    /\ now idle + 1800 <= now s'.
Proof.
  apply (wait_for_completion_deadline_as_written world_pending 42 0 1802 idle).
  - intros t. exists 1, (shoe_row PNone). split; reflexivity.
  - reflexivity.
  - lia.
Defined.

(** A read whose cursor cannot be opened: the connection is taken and
    closed, no statement is run. *)
Example wait_for_completion_cursor_fails :
  wait_for_completion bound_globals
    (world_reading (CursorFails (OtherError "MySQL Connection not available.")))
    2 42 0 idle
  = (Raise (OtherError "MySQL Connection not available."),
     mkState 1 None [] [EvWait 42 0; EvGetConnection 0; EvClose 0]).
Proof. reflexivity. Qed.

(** With [PoolError] bound the same wait returns the sentinel at the
    deadline, as the claim C2 has it. *)
Lemma wait_for_completion_deadline_when_bound
      (G : globals) (W : world) (result_id : nat) (p : pool) (fuel : nat)
      (s : state) :
  PoolError_bound G = true ->
  never_complete W p result_id ->
  deadline s = None ->
  1801 < fuel ->
  exists s',
    wait_for_completion G W fuel result_id p s = (Ret (PNone, PNone, PNone), s')
    /\ now s + 1800 <= now s'.
Proof.
  intros Hb Hw Hd Hf.
  destruct (wait_for_completion_never_complete G W result_id p Hw fuel s Hd Hf)
    as [s' [E [Hn _]]].
  rewrite Hb in E. exists s'. auto.
Qed.

(** C3 (the code departs from the claim).  On the module as written, a
    pool exhaustion met by the read of a wait that runs outside any other
    timer is not recovered: nothing is put on the queue,
    [process_queued_item] is not entered, and [wait_for_completion]
    raises [NameError] to its caller, because the name [PoolError] of the
    [except] clause is not bound. *)
Theorem wait_for_completion_pool_exhausted_as_written
        (W : world) (f result_id : nat) (p : pool) (s : state) (d : nat)
        (msg : string) :
  deadline s = None ->
  w_read W (now s) p result_id = (d, AcquireFails (PoolError msg)) ->
  str_contains "pool exhausted" msg = true ->
  wait_for_completion utility_globals W (S (S f)) result_id p s
  = (Raise (NameError "PoolError"),
     log [EvWait result_id p] (set_now (now s + d) s)).
Proof.
  intros Hd Hr _.
  rewrite (wait_for_completion_read_fails_unbound utility_globals W f result_id p s
             d (AcquireFails (PoolError msg)) eq_refl Hd Hr)
    by (intros row; discriminate).
  unfold get_task_status. rewrite Hr. reflexivity.
Qed.

Lemma wait_for_completion_pool_exhausted_as_written_witness :
  wait_for_completion utility_globals world_exhausted 2 42 0 idle
  = (Raise (NameError "PoolError"), mkState 1 None [] [EvWait 42 0]).
Proof.
  apply (wait_for_completion_pool_exhausted_as_written world_exhausted 0 42 0 idle 1
           "Failed getting connection; pool exhausted").
  - reflexivity.
  - reflexivity.
  - reflexivity.
Defined.

(** With [PoolError] bound, the exhaustion puts [(result_id, db_pool)] on
    the queue and the consumer takes it up with the carried pool, as the
    claim C3 has it. *)
Lemma wait_for_completion_pool_exhausted_when_bound
      (G : globals) (W : world) (f result_id : nat) (p : pool) (s : state)
      (d : nat) (msg : string) :
  PoolError_bound G = true ->
  queue s = [] ->
  w_read W (now s) p result_id = (d, AcquireFails (PoolError msg)) ->
  str_contains "pool exhausted" msg = true ->
  cancelled_by (deadline s) (now s + d) = false ->
  poll_database G W (S (S f)) result_id p s
  = wait_for_completion G W f result_id p
      (log [EvPut (result_id, p); EvGet (result_id, p)] (set_now (now s + d) s)).
Proof.
  intros Hb Hq Hr Hm Hc.
  rewrite (poll_database_hands_off G W (S f) result_id p s d msg Hb Hr Hm Hc).
  rewrite (process_queued_item_head_match G W f result_id p _ []).
  - unfold log, set_queue, set_now. simpl. rewrite <- app_assoc, Hq. reflexivity.
  - simpl. rewrite Hq. reflexivity.
Qed.

(** C4. When the remote task creation raises, [process_row] executes no
    INSERT and no commit (the only event is the POST, so the store is as
    before), and returns a result with an "error" field, the text of the
    exception. *)
Theorem process_row_create_fails_no_insert
        (G : globals) (W : world) (fuel : nat) (row : dict pyval)
        (uniqueid : pyval) (s : state) (d : nat) (e : exn) :
  deadline s = None ->
  w_create W (now s) (dataset_split row uniqueid) = (d, Fails e) ->
  is_Exception e = true ->
  exists r s',
    process_row G W fuel row uniqueid s = (Ret r, s')
    /\ lookup "error" r = Some (FVal (PStr (exn_str e)))
    /\ trace s' = trace s ++ [EvPost (dataset_split row uniqueid)]
    /\ store_writes (trace s') = store_writes (trace s).
Proof.
  intros Hd Hc He.
  rewrite (process_row_create_raises G W fuel row uniqueid s d e Hd Hc He).
  eexists. eexists. split; [ reflexivity | ]. simpl.
  repeat split. rewrite store_writes_app. simpl. apply app_nil_r.
Qed.

Lemma process_row_create_fails_no_insert_witness :
  exists r s',
    process_row bound_globals
      (world_creating (Fails (OtherError "connection refused")) (fun _ => None))
      1 nike_row batch1 idle
    = (Ret r, s')
    /\ lookup "error" r = Some (FVal (PStr "connection refused"))
    /\ trace s' = [EvPost ["Nike"; "red shoes"; "7"; "batch1"]]
    /\ store_writes (trace s') = [].
Proof.
  apply (process_row_create_fails_no_insert bound_globals
           (world_creating (Fails (OtherError "connection refused")) (fun _ => None))
           1 nike_row batch1 idle 1 (OtherError "connection refused")).
  - reflexivity.
  - reflexivity.
  - reflexivity.
Defined.





(** With [PoolError] bound, the wait that meets the exhaustion is queued
    behind whatever the queue holds, found again by the consumer under
    the timer of the wait, and completes with the row read through the
    carried pool: the claim C6. *)
Lemma wait_for_completion_queued_wait_completes_when_bound
      (G : globals) (W : world) (f result_id : nat) (p p' : pool) (s : state)
      (d d' : nat) (msg : string) (pre post : list item) (r : db_row) :
  PoolError_bound G = true ->
  deadline s = None ->
  w_read W (now s) p result_id = (d, AcquireFails (PoolError msg)) ->
  str_contains "pool exhausted" msg = true ->
  first_match result_id (queue s ++ [(result_id, p)]) = Some (pre, p', post) ->
  w_read W (now s + d) p' result_id = (d', Fetched (Some r)) ->
  truthy (completeTime r) = true ->
  d + d' < 1800 ->
  wait_for_completion G W (S (S (List.length pre + S (S (S f))))) result_id p s
  = (Ret (EntryID r, ImageUrl r, ImageDesc r),
     mkState (now s + d + d') None (post ++ pre)
       (trace s ++ [EvWait result_id p; EvPut (result_id, p)] ++ rotation pre
          ++ [EvGet (result_id, p'); EvWait result_id p';
              EvGetConnection p'; EvSelect result_id; EvClose p'])).
Proof.
  intros Hb Hd Hr Hm Hfm Hr' Ht Hlt.
  apply first_match_Some in Hfm. destruct Hfm as [Hq Hpre].
  destruct s as [t dl q tr]. simpl in Hd, Hr, Hq, Hr'. subst dl.
  rewrite wait_for_completion_unfold. unfold wait_deadline.
  simpl now. simpl deadline. simpl trace. simpl queue.
  rewrite (poll_database_hands_off G W _ result_id p _ d msg Hb)
    by (simpl; auto; apply Nat.leb_gt; lia).
  unfold log, set_queue, set_now, set_deadline. simpl.
  match goal with
  | |- context [process_queued_item G W _ result_id ?s0] =>
      assert (Hs : s0 = mkState (t + d) (Some (t + 1800))
                         (pre ++ (result_id, p') :: post)
                         ((tr ++ [EvWait result_id p]) ++ [EvPut (result_id, p)]))
        by (f_equal; exact Hq);
      rewrite Hs
  end.
  rewrite process_queued_item_rotates by assumption.
  rewrite (wait_for_completion_complete_read G W f result_id p' _ d' (Some r));
    simpl; auto.
  - unfold log, set_now. simpl. rewrite <- !app_assoc. reflexivity.
  - unfold wait_deadline. simpl.
    replace (t + d + 1800 <? t + 1800) with false
      by (symmetry; apply Nat.ltb_ge; lia).
    apply Nat.leb_gt. lia.
Qed.


(** C7. Whatever the datastore and the pool answer and however long it
    runs, [wait_for_completion] changes nothing in the Result Store (no
    INSERT, no commit: it only reads), and every connection it takes
    serves one read (none, when the cursor cannot be opened) and is
    closed before anything else happens, so that none is held while it
    sleeps or waits on the queue. *)
Theorem wait_for_completion_only_reads
        (G : globals) (W : world) (fuel result_id : nat) (p : pool) (s : state) :
  exists evs,
    trace (snd (wait_for_completion G W fuel result_id p s)) = trace s ++ evs
    /\ conn_discipline Free evs = true
    /\ store_writes evs = [].
Proof.
  pose (ok := fun evs => conn_discipline Free evs = true /\ store_writes evs = []).
  assert (H : emits ok (wait_for_completion G W fuel result_id p)).
  { apply (emits_wait_coroutines ok); unfold ok.
    - split; reflexivity.
    - intros a b [Ha Ha'] [Hb Hb']. split.
      + apply conn_discipline_app; assumption.
      + rewrite store_writes_app, Ha', Hb'. reflexivity.
    - intros; split; reflexivity.
    - intros; split; reflexivity.
    - intros; split; reflexivity.
    - intros; split; reflexivity.
    - intros; split; reflexivity.
    - intros; split; reflexivity. }
  destruct (H s) as [evs [E [H1 H2]]]. exists evs. auto.
Qed.

(** A read that finds the row absent, or its [completeTime] falsy, is
    followed by the sleep and the next pass of the loop. *)
Lemma poll_database_keeps_polling
      (G : globals) (W : world) (f result_id : nat) (p : pool) (s : state)
      (d : nat) (row : option db_row) :
  w_read W (now s) p result_id = (d, Fetched row) ->
  complete row = false ->
  cancelled_by (deadline s) (now s + d + 5) = false ->
  poll_database G W (S f) result_id p s
  = poll_database G W f result_id p
      (log [EvGetConnection p; EvSelect result_id; EvClose p; EvSleep 5]
           (set_now (now s + d + 5) s)).
Proof.
  intros Hr Hc Hn. simpl poll_database.
  destruct s as [t dl q tr]. simpl in *.
  assert (Hn0 : cancelled_by dl (t + d) = false).
  { destruct dl as [dl | ]; [ | reflexivity ]. simpl in *.
    apply Nat.leb_gt in Hn. apply Nat.leb_gt. lia. }
  unfold poll_once, run_in_executor, get_task_status, bind. simpl.
  rewrite Hr. simpl. rewrite Hn0.
  unfold complete in Hc.
  destruct row as [r | ]; [ rewrite Hc | ];
    unfold sleep; simpl; rewrite Hn; simpl;
    unfold log, set_now; simpl; rewrite <- app_assoc; reflexivity.
Qed.

(** C8. [poll_task_status] under its ceiling of 5000: after any number of
    answers that decide nothing, an elapsed time above the ceiling at the
    head of the loop gives the timeout error; under the ceiling, an
    answer with status "Completed" is returned as it is, and one with
    status "Failed" or "Error" gives the failure error.  When no answer
    ever decides, the timeout error does come. *)
Theorem poll_task_status_results
        (W : world) (task_id : pyval) (interval : Z) (k fuel : nat) (s : state) :
  w_poll_interval W = Ok interval ->
  deadline s = None ->
  (forall j, j < k ->
     now (poll_rounds W task_id interval j s) - now s <= default_timeout
     /\ inconclusive
          (snd (w_poll W (now (poll_rounds W task_id interval j s)) task_id))) ->
  let sk := poll_rounds W task_id interval k s in
  (default_timeout < now sk - now s ->
     poll_task_status W (k + S fuel) task_id default_timeout s
     = (Ret timeout_result, sk))
  /\ (now sk - now s <= default_timeout ->
      forall d data,
        w_poll W (now sk) task_id = (d, Ok (JDict data)) ->
        (lookup "status" data = Some (PStr "Completed") ->
           poll_task_status W (k + S fuel) task_id default_timeout s
           = (Ret data, set_now (now sk + d) (log [EvPoll task_id] sk)))
        /\ (lookup "status" data = Some (PStr "Failed")
            \/ lookup "status" data = Some (PStr "Error") ->
            poll_task_status W (k + S fuel) task_id default_timeout s
            = (Ret failed_result, set_now (now sk + d) (log [EvPoll task_id] sk))))
  /\ ((0 < interval)%Z ->
      (forall t, inconclusive (snd (w_poll W t task_id))) ->
      default_timeout + 1 < fuel ->
      exists s',
        poll_task_status W fuel task_id default_timeout s = (Ret timeout_result, s')
        /\ default_timeout < now s' - now s).
Proof.
  intros Hi Hd Hk sk.
  assert (Hdk : deadline sk = None).
  { unfold sk, poll_rounds. clear Hk. induction k as [ | k IH]; [ exact Hd | exact IH ]. }
  assert (Hloop : forall n,
            poll_task_status W (k + n) task_id default_timeout s
            = poll_loop W n task_id default_timeout (now s) sk).
  { intros n. unfold poll_task_status.
    apply (poll_loop_rounds W task_id interval Hi); assumption. }
  split; [ | split ].
  - intros Ht. rewrite Hloop. apply poll_loop_timeout. exact Ht.
  - intros Ht d data Hr. split.
    + intros Hs. rewrite Hloop.
      apply (poll_loop_completed W task_id); assumption.
    + intros Hs. rewrite Hloop.
      apply (poll_loop_failed W task_id) with (data := data); assumption.
  - intros Hpos Hw Hf. unfold poll_task_status.
    apply (poll_loop_gives_up W task_id interval Hi); auto. lia.
Qed.

Lemma poll_task_status_results_witness :
  poll_task_status world_done 4 (PStr "t1") default_timeout idle
  = (Ret [("status", PStr "Completed"); ("url", PStr "http://x/img.jpg")],
     mkState 1 None [] [EvPoll (PStr "t1")]).
Proof.
  assert (H0 : forall j, j < 0 ->
            now (poll_rounds world_done (PStr "t1") 60%Z j idle) - now idle
            <= default_timeout
            /\ inconclusive
                 (snd (w_poll world_done
                         (now (poll_rounds world_done (PStr "t1") 60%Z j idle))
                         (PStr "t1")))) by (intros j Hj; lia).
  destruct (poll_task_status_results world_done (PStr "t1") 60%Z 0 3 idle
              eq_refl eq_refl H0) as [_ [Hdone _]].
  apply (Hdone (Nat.le_0_l default_timeout) 1
               [("status", PStr "Completed"); ("url", PStr "http://x/img.jpg")]
               eq_refl).
  reflexivity.
Defined.

(** C9 (the code departs from the claim).  A read that returns no row,
    and a row whose [completeTime] is falsy (null, 0 or the empty
    string), both count as not complete, and the loop sleeps and reads
    again.  But on the module as written the wait on an id without a row
    does raise: it runs to the 1800-unit deadline and ends there with the
    [NameError] of [except PoolError], not with the sentinel. *)
Theorem wait_for_completion_absent_row_as_written
        (W : world) (result_id : nat) (p : pool) :
  (complete None = false
   /\ forall r,
        completeTime r = PNone \/ completeTime r = PInt 0 \/ completeTime r = PStr "" ->
        complete (Some r) = false)
  /\ (forall G f s d row,
        w_read W (now s) p result_id = (d, Fetched row) ->
        complete row = false ->
        cancelled_by (deadline s) (now s + d + 5) = false ->
        poll_database G W (S f) result_id p s
        = poll_database G W f result_id p
            (log [EvGetConnection p; EvSelect result_id; EvClose p; EvSleep 5]
                 (set_now (now s + d + 5) s)))
  /\ ((forall t, exists d, w_read W t p result_id = (d, Fetched None)) ->
      forall fuel s,
        deadline s = None ->
        1801 < fuel ->
        exists s',
          wait_for_completion utility_globals W fuel result_id p s
          = (Raise (NameError "PoolError"), s')
          /\ now s + 1800 <= now s').
Proof.
  split; [ | split ].
  - split; [ reflexivity | ].
    intros r [H | [H | H]]; simpl; rewrite H; reflexivity.
  - intros G f s d row. apply poll_database_keeps_polling.
  - intros Hw fuel s Hd Hf.
    destruct (wait_for_completion_never_complete utility_globals W result_id p)
      with (fuel := fuel) (s := s) as [s' [E [Hn _]]]; auto.
    + intros t. destruct (Hw t) as [d Hr]. exists d, None. auto.
    + exists s'. auto.
Qed.

Lemma wait_for_completion_absent_row_as_written_witness :
  exists s',
    wait_for_completion utility_globals world_absent 1802 42 0 idle
    = (Raise (NameError "PoolError"), s')
    /\ now idle + 1800 <= now s'.
Proof.
  destruct (wait_for_completion_absent_row_as_written world_absent 42 0)
    as [_ [_ H]].
  apply H.
  - intros t. exists 1. reflexivity.
  - reflexivity.
  - lia.
Defined.

(** C10. A single consumer, no producer, no timer around it.  When the
    queue of [n] items holds one for [result_id], [process_queued_item]
    reaches it after as many dequeues as its position, at most [n],
    leaves the rotation loop for [wait_for_completion], and terminates;
    when the queue holds none, it never returns: it blocks on the empty
    queue, or rotates the items as long as it runs. *)
Theorem process_queued_item_terminates_iff_queued
        (G : globals) (W : world) (result_id : nat) (s : state) :
  deadline s = None ->
  (Exists (fun i => fst i = result_id) (queue s) ->
   exists pre p post,
     queue s = pre ++ (result_id, p) :: post
     /\ Forall (fun i => fst i <> result_id) pre
     /\ gets (rotation pre ++ [EvGet (result_id, p)]) <= List.length (queue s)
     /\ (forall f,
           process_queued_item G W (List.length pre + S f) result_id s
           = wait_for_completion G W f result_id p
               (mkState (now s) None (post ++ pre)
                        (trace s ++ rotation pre ++ [EvGet (result_id, p)])))
     /\ ((forall t q r, 1 <= fst (w_read W t q r)) ->
         forall fuel,
           List.length (queue s) + wait_fuel (List.length (queue s)) <= fuel ->
           terminated (fst (process_queued_item G W fuel result_id s))))
  /\ (Forall (fun i => fst i <> result_id) (queue s) ->
      forall fuel,
        fst (process_queued_item G W fuel result_id s)
        = match queue s, fuel with
          | [], S _ => Hang
          | _, _ => OutOfFuel
          end).
Proof.
  intros Hd. split.
  - intros Hex.
    destruct (first_match_Exists result_id (queue s) Hex) as [pre [p [post Hm]]].
    apply first_match_Some in Hm. destruct Hm as [Hq Hpre].
    exists pre, p, post.
    assert (Hlen : List.length (queue s) = List.length pre + S (List.length post)).
    { rewrite Hq, length_app. reflexivity. }
    assert (Hrot : forall f,
              process_queued_item G W (List.length pre + S f) result_id s
              = wait_for_completion G W f result_id p
                  (mkState (now s) None (post ++ pre)
                     (trace s ++ rotation pre ++ [EvGet (result_id, p)]))).
    { intros f. destruct s as [t dl q tr]. simpl in *. subst q dl.
      apply process_queued_item_rotates. exact Hpre. }
    repeat split; auto.
    + unfold gets in *. rewrite filter_app, length_app.
      fold (gets (rotation pre)). rewrite gets_rotation. simpl. lia.
    + intros Hpos fuel Hf.
      replace fuel with (List.length pre + S (fuel - List.length pre - 1)) by lia.
      rewrite Hrot. apply wait_for_completion_terminates; [ exact Hpos | ].
      simpl. rewrite length_app. unfold wait_fuel in *. lia.
  - intros Hall fuel. apply process_queued_item_no_match; assumption.
Qed.

Lemma process_queued_item_terminates_iff_queued_witness :
  fst (process_queued_item bound_globals world_done 100 42
         (mkState 0 None [(7, 1); (9, 2)] []))
  = OutOfFuel.
Proof.
  destruct (process_queued_item_terminates_iff_queued bound_globals world_done 42
              (mkState 0 None [(7, 1); (9, 2)] []) eq_refl) as [_ H].
  apply H. repeat constructor; simpl; lia.
Defined.

(** * Further properties of [utility.py] *)

(** ** The polling loop and the consumer, case by case *)

Section WaitCases.

Variable G : globals.
Variable W : world.

(** The hand-off of lines 112-113. *)
Definition hand_off (f result_id : nat) (p : pool) : M triple :=
  queue_put (result_id, p) ;;; process_queued_item G W f result_id.

Lemma hand_off_eq (f result_id : nat) (p : pool) (s : state) :
  hand_off f result_id p s
  = process_queued_item G W f result_id
      (mkState (now s) (deadline s) (queue s ++ [(result_id, p)])
               (trace s ++ [EvPut (result_id, p)])).
Proof. reflexivity. Qed.

(** The [except] clause either raises, or (with [PoolError] bound, on a
    pool exhaustion) hands off. *)
Lemma except_PoolError_cases (e : exn) (h : M triple) (s : state) :
  (PoolError_bound G = true /\ except_PoolError G e h s = h s)
  \/ exists e',
       except_PoolError G e h s = (Raise e', s)
       /\ (PoolError_bound G = false -> e' = NameError "PoolError")
       /\ (PoolError_bound G = true -> e' = e).
Proof.
  unfold except_PoolError. destruct (PoolError_bound G) eqn:B.
  - destruct e; try (right; eexists; split; [ reflexivity | split; congruence ]).
    destruct (str_contains _ _).
    + left. auto.
    + right. eexists. split; [ reflexivity | split; congruence ].
  - right. eexists. split; [ reflexivity | split; congruence ].
Qed.

Inductive poll_case (f result_id : nat) (p : pool) (s : state)
  : outcome triple * state -> Prop :=
| PollCancelledInRead (s1 : state) :
    deadline s1 = deadline s -> queue s1 = queue s ->
    cancelled_by (deadline s) (now s + fst (w_read W (now s) p result_id)) = true ->
    now s1 = now s + fst (w_read W (now s) p result_id) ->
    poll_case f result_id p s (Raise (escaping G CancelledError), s1)
| PollReadFails (s1 : state) (e : exn) :
    deadline s1 = deadline s -> queue s1 = queue s ->
    cancelled_by (deadline s) (now s + fst (w_read W (now s) p result_id)) = false ->
    now s1 = now s + fst (w_read W (now s) p result_id) ->
    snd (w_read W (now s) p result_id) = AcquireFails e
    \/ snd (w_read W (now s) p result_id) = CursorFails e
    \/ snd (w_read W (now s) p result_id) = QueryFails e ->
    poll_case f result_id p s
              (except_PoolError G e (hand_off f result_id p) s1)
| PollComplete (s1 : state) (row : option db_row) :
    deadline s1 = deadline s -> queue s1 = queue s ->
    cancelled_by (deadline s) (now s + fst (w_read W (now s) p result_id)) = false ->
    now s1 = now s + fst (w_read W (now s) p result_id) ->
    snd (w_read W (now s) p result_id) = Fetched row ->
    complete row = true ->
    poll_case f result_id p s (Ret (row_triple row), s1)
| PollCancelledInSleep (s1 : state) (row : option db_row) (dl : nat) :
    deadline s1 = deadline s -> queue s1 = queue s ->
    snd (w_read W (now s) p result_id) = Fetched row ->
    complete row = false ->
    deadline s = Some dl ->
    now s + fst (w_read W (now s) p result_id) < dl ->
    dl <= now s + fst (w_read W (now s) p result_id) + 5 ->
    now s1 = dl ->
    poll_case f result_id p s (Raise (escaping G CancelledError), s1)
| PollAgain (s1 : state) (row : option db_row) :
    deadline s1 = deadline s -> queue s1 = queue s ->
    snd (w_read W (now s) p result_id) = Fetched row ->
    complete row = false ->
    cancelled_by (deadline s) (now s + fst (w_read W (now s) p result_id) + 5) = false ->
    now s1 = now s + fst (w_read W (now s) p result_id) + 5 ->
    poll_case f result_id p s (poll_database G W f result_id p s1).

Lemma poll_database_cases (f result_id : nat) (p : pool) (s : state) :
  poll_case f result_id p s (poll_database G W (S f) result_id p s).
Proof.
  simpl poll_database.
  pose proof (poll_once_cases W result_id p s) as H. simpl in H.
  destruct (poll_once W result_id p s) as [o s1]. simpl in H.
  destruct H as [Hd [Hq H]].
  destruct (cancelled_by (deadline s) (now s + fst (w_read W (now s) p result_id)))
    eqn:C.
  - destruct H as [Ho Hn]. subst o. rewrite except_PoolError_CancelledError.
    apply PollCancelledInRead; assumption.
  - destruct (snd (w_read W (now s) p result_id)) as [e | e | e | row] eqn:R.
    + destruct H as [Ho Hn]. subst o.
      apply PollReadFails; auto.
    + destruct H as [Ho Hn]. subst o.
      apply PollReadFails; auto.
    + destruct H as [Ho Hn]. subst o.
      apply PollReadFails; auto.
    + destruct (complete row) eqn:Cr.
      * destruct H as [Ho Hn]. subst o. apply PollComplete; assumption.
      * destruct (cancelled_by (deadline s)
                    (now s + fst (w_read W (now s) p result_id) + 5)) eqn:C5.
        -- destruct H as [Ho [dl [Hdl Hn]]]. subst o.
           rewrite except_PoolError_CancelledError.
           rewrite Hdl in C, C5. simpl in C, C5.
           apply Nat.leb_gt in C. apply Nat.leb_le in C5.
           apply PollCancelledInSleep with (row := row) (dl := dl); auto. lia.
        -- destruct H as [Ho Hn]. subst o.
           apply PollAgain with (row := row); assumption.
Qed.

Inductive consumer_case (f result_id : nat) (s : state)
  : outcome triple * state -> Prop :=
| ConsumerBlocked :
    queue s = [] -> deadline s = None ->
    consumer_case f result_id s (Hang, s)
| ConsumerCancelled (dl : nat) :
    queue s = [] -> deadline s = Some dl ->
    consumer_case f result_id s
                  (Raise CancelledError, set_now (Nat.max (now s) dl) s)
| ConsumerMatch (p : pool) (q : list item) :
    queue s = (result_id, p) :: q ->
    consumer_case f result_id s
      (wait_for_completion G W f result_id p
         (log [EvGet (result_id, p)] (set_queue q s)))
| ConsumerRotate (i : item) (q : list item) :
    queue s = i :: q -> fst i <> result_id ->
    consumer_case f result_id s
      (process_queued_item G W f result_id
         (log [EvGet i; EvPut i] (set_queue (q ++ [i]) s))).

Lemma process_queued_item_cases (f result_id : nat) (s : state) :
  consumer_case f result_id s (process_queued_item G W (S f) result_id s).
Proof.
  destruct (queue s) as [ | [r p] q] eqn:Q.
  - simpl. unfold bind, queue_get. rewrite Q.
    destruct (deadline s) as [dl | ] eqn:D.
    + apply ConsumerCancelled; assumption.
    + apply ConsumerBlocked; assumption.
  - destruct (Nat.eq_dec r result_id) as [E | E].
    + subst r. rewrite (process_queued_item_head_match G W f result_id p s q Q).
      apply ConsumerMatch. exact Q.
    + rewrite (process_queued_item_head_mismatch G W f result_id (r, p) s q Q E).
      apply ConsumerRotate; assumption.
Qed.

End WaitCases.

(** ** How long the completion wait can last *)

(** A state whose pending timer, if any, has not expired. *)
Definition in_time (s : state) : Prop :=
  match deadline s with
  | Some dl => now s <= dl
  | None => True
  end.

Lemma wait_deadline_ge (s : state) : in_time s -> now s <= wait_deadline s.
Proof.
  unfold in_time, wait_deadline. destruct (deadline s) as [d | ]; [ | lia ].
  destruct (now s + 1800 <? d); lia.
Qed.

Section TimeBound.

Variable G : globals.
Variable W : world.
Variable delta : nat.

Hypothesis reads_bounded : forall t p r, fst (w_read W t p r) <= delta.

Lemma wait_coroutines_time (fuel : nat) :
  (forall r s dl,
      deadline s = Some dl -> now s <= dl ->
      now (snd (process_queued_item G W fuel r s)) <= dl + delta)
  /\ (forall r p s,
        in_time s ->
        now (snd (wait_for_completion G W fuel r p s)) <= wait_deadline s + delta)
  /\ (forall r p s dl,
        deadline s = Some dl -> now s <= dl ->
        now (snd (poll_database G W fuel r p s)) <= dl + delta).
Proof.
  induction fuel as [ | f [IHq [IHw IHp]]].
  - repeat split; intros; simpl; try lia.
    pose proof (wait_deadline_ge s H). lia.
  - repeat split.
    + intros r s dl Hd Hn.
      destruct (process_queued_item_cases G W f r s) as [Hq Hd' | dl' Hq Hd' | p q Hq | i q Hq Hi].
      * congruence.
      * simpl. rewrite Hd in Hd'. inversion Hd'; subst dl'. lia.
      * match goal with
        | |- context [wait_for_completion G W f r p ?s0] =>
            pose proof (IHw r p s0) as H;
            pose proof (wait_deadline_le_outer s0 dl Hd) as H'
        end.
        unfold in_time in H. simpl in H. rewrite Hd in H.
        specialize (H Hn). lia.
      * apply IHq; simpl; assumption.
    + intros r p s Hs. rewrite wait_for_completion_unfold.
      pose proof (wait_deadline_ge s Hs) as Hge.
      match goal with
      | |- context [poll_database G W f r p ?s0] =>
          pose proof (IHp r p s0 (wait_deadline s) eq_refl Hge) as H;
          destruct (poll_database G W f r p s0) as [[a | [ | | | | ] | | ] s']
      end; simpl in *; try exact H.
      destruct (deadline s) as [d | ]; [ destruct (now s + 1800 <? d) | ];
        simpl; exact H.
    + intros r p s dl Hd Hn.
      pose proof (reads_bounded (now s) p r) as Hb.
      destruct (poll_database_cases G W f r p s)
        as [s1 Hd1 Hq1 Hc Hn1 | s1 e Hd1 Hq1 Hc Hn1 He | s1 row Hd1 Hq1 Hc Hn1 Hr Hcr
            | s1 row dl' Hd1 Hq1 Hr Hcr Hdl Hlt Hle Hn1 | s1 row Hd1 Hq1 Hr Hcr Hc Hn1].
      * simpl. lia.
      * rewrite Hd in Hc. simpl in Hc. apply Nat.leb_gt in Hc.
        destruct (except_PoolError_cases G e (hand_off G W f r p) s1)
          as [[_ E] | [e' [E _]]]; rewrite E.
        -- rewrite hand_off_eq. apply IHq; simpl; [ congruence | lia ].
        -- simpl. lia.
      * rewrite Hd in Hc. simpl in Hc. apply Nat.leb_gt in Hc. simpl. lia.
      * simpl. rewrite Hd in Hdl. inversion Hdl; subst dl'. lia.
      * rewrite Hd in Hc. simpl in Hc. apply Nat.leb_gt in Hc.
        apply IHp; [ congruence | lia ].
Qed.

End TimeBound.

From Stdlib Require Import Permutation.

(** ** What the completion wait leaves in the queue *)

Section QueueKept.

Variable G : globals.
Variable W : world.

Definition ids (q : list item) : list nat := map fst q.

Lemma ids_put (q : list item) (i : item) : ids (q ++ [i]) = ids q ++ [fst i].
Proof. unfold ids. rewrite map_app. reflexivity. Qed.

Lemma wait_coroutines_queue (fuel : nat) :
  (forall r s,
      terminated (fst (process_queued_item G W fuel r s)) ->
      (queue s = [] /\ queue (snd (process_queued_item G W fuel r s)) = [])
      \/ Permutation (r :: ids (queue (snd (process_queued_item G W fuel r s))))
                     (ids (queue s)))
  /\ (forall r p s,
        terminated (fst (wait_for_completion G W fuel r p s)) ->
        Permutation (ids (queue (snd (wait_for_completion G W fuel r p s))))
                    (ids (queue s)))
  /\ (forall r p s,
        terminated (fst (poll_database G W fuel r p s)) ->
        Permutation (ids (queue (snd (poll_database G W fuel r p s))))
                    (ids (queue s))).
Proof.
  induction fuel as [ | f [IHq [IHw IHp]]].
  - repeat split; intros; simpl in *; contradiction.
  - repeat split.
    + intros r s.
      destruct (process_queued_item_cases G W f r s)
        as [Hq Hd | dl Hq Hd | p q Hq | i q Hq Hi]; intros Ht.
      * simpl in Ht. contradiction.
      * left. simpl. auto.
      * right. apply IHw in Ht. simpl in Ht. rewrite Hq. simpl.
        apply perm_skip. exact Ht.
      * right. apply IHq in Ht. simpl in Ht.
        destruct Ht as [[Hnil _] | Hp].
        -- destruct q; discriminate.
        -- rewrite Hq. rewrite ids_put in Hp. simpl.
           eapply Permutation_trans; [ exact Hp | ].
           apply Permutation_sym, Permutation_cons_append.
    + intros r p s. rewrite wait_for_completion_unfold.
      match goal with
      | |- context [poll_database G W f r p ?s0] =>
          pose proof (IHp r p s0) as H;
          destruct (poll_database G W f r p s0) as [[a | [ | | | | ] | | ] s']
      end; simpl in *; intros Ht; try contradiction; try (apply H; exact I).
      destruct (deadline s) as [d | ]; [ destruct (now s + 1800 <? d) | ];
        simpl; apply H; exact I.
    + intros r p s.
      destruct (poll_database_cases G W f r p s)
        as [s1 Hd1 Hq1 Hc Hn1 | s1 e Hd1 Hq1 Hc Hn1 He | s1 row Hd1 Hq1 Hc Hn1 Hr Hcr
            | s1 row dl' Hd1 Hq1 Hr Hcr Hdl Hlt Hle Hn1 | s1 row Hd1 Hq1 Hr Hcr Hc Hn1];
        intros Ht; simpl; try (rewrite Hq1; apply Permutation_refl).
      * destruct (except_PoolError_cases G e (hand_off G W f r p) s1)
          as [[_ E] | [e' [E _]]]; rewrite E in *.
        -- rewrite hand_off_eq in *. apply IHq in Ht. simpl in Ht.
           destruct Ht as [[Hnil _] | Hp].
           ++ destruct (queue s1); discriminate.
           ++ rewrite ids_put in Hp. simpl in Hp. rewrite <- Hq1.
              apply Permutation_cons_inv with (a := r).
              eapply Permutation_trans; [ exact Hp | ].
              apply Permutation_sym, Permutation_cons_append.
        -- simpl. rewrite Hq1. apply Permutation_refl.
      * apply IHp in Ht. rewrite Hq1 in Ht. exact Ht.
Qed.

End QueueKept.

(** ** What the completion wait can return *)

Definition sentinel : triple := (PNone, PNone, PNone).

Section Soundness.

Variable G : globals.
Variable W : world.

(** The wait that went from state [s] to state [s'] ended with a read for
    [result_id]: the read was started at [t0], during the wait, found the
    row complete, gave the triple [t], and its end is the end of the
    wait, its three events being the last of the trace. *)
Definition last_read (s s' : state) (result_id : nat) (t : triple) : Prop :=
  exists t0 p d row evs,
    now s <= t0
    /\ w_read W t0 p result_id = (d, Fetched row)
    /\ complete row = true
    /\ t = row_triple row
    /\ now s' = t0 + d
    /\ trace s' = trace s ++ evs
                   ++ [EvGetConnection p; EvSelect result_id; EvClose p].

Lemma last_read_after (s s1 s' : state) (result_id : nat) (t : triple)
      (evs0 : list event) :
  now s <= now s1 ->
  trace s1 = trace s ++ evs0 ->
  last_read s1 s' result_id t ->
  last_read s s' result_id t.
Proof.
  intros Hn Htr [t0 [p [d [row [evs [H0 [Hr [Hc [Ht [Hn' Htr']]]]]]]]]].
  exists t0, p, d, row, (evs0 ++ evs). repeat split; auto; try lia.
  rewrite Htr', Htr, <- !app_assoc. reflexivity.
Qed.

Lemma poll_once_now_le (result_id : nat) (p : pool) (s : state) :
  now s <= now (snd (poll_once W result_id p s)).
Proof.
  pose proof (poll_once_cases W result_id p s) as H. simpl in H.
  destruct H as [_ [_ H]].
  destruct (cancelled_by _ _); [ lia | ].
  destruct (snd (w_read W (now s) p result_id)) as [e | e | e | row]; try lia.
  destruct (complete row); [ lia | ].
  destruct (cancelled_by _ _); [ | lia ].
  destruct H as [_ [dl [_ Hn]]]. lia.
Qed.

Lemma poll_once_extends (result_id : nat) (p : pool) (s : state) :
  exists evs, trace (snd (poll_once W result_id p s)) = trace s ++ evs.
Proof.
  destruct (emits_poll_once (fun _ => True) I (fun _ _ _ _ => I) W
              (fun _ _ => I) (fun _ => I) (fun _ => I) result_id p s)
    as [evs [E _]].
  exists evs. exact E.
Qed.

Lemma poll_once_returns (result_id : nat) (p : pool) (s : state) (t : triple) :
  fst (poll_once W result_id p s) = Ret (Some t) ->
  exists d row,
    w_read W (now s) p result_id = (d, Fetched row)
    /\ complete row = true
    /\ t = row_triple row
    /\ now (snd (poll_once W result_id p s)) = now s + d
    /\ trace (snd (poll_once W result_id p s))
       = trace s ++ [EvGetConnection p; EvSelect result_id; EvClose p].
Proof.
  unfold poll_once, run_in_executor, get_task_status, bind.
  destruct (w_read W (now s) p result_id) as [d res]. simpl.
  destruct (cancelled_by (deadline s) (now s + d)).
  - destruct res; simpl; discriminate.
  - destruct res as [e | e | e | [r | ]]; simpl; try discriminate.
    + destruct (truthy (completeTime r)) eqn:C; simpl.
      * intros E. inversion E; subst.
        exists d, (Some r). repeat split; auto.
      * unfold sleep. simpl. destruct (cancelled_by _ _);
          [ destruct (deadline s) | ]; simpl; discriminate.
    + unfold sleep. simpl. destruct (cancelled_by _ _);
        [ destruct (deadline s) | ]; simpl; discriminate.
Qed.

Lemma wait_coroutines_sound (fuel : nat) :
  (forall r s t s',
      process_queued_item G W fuel r s = (Ret t, s') ->
      t = sentinel \/ last_read s s' r t)
  /\ (forall r p s t s',
        wait_for_completion G W fuel r p s = (Ret t, s') ->
        t = sentinel \/ last_read s s' r t)
  /\ (forall r p s t s',
        poll_database G W fuel r p s = (Ret t, s') ->
        t = sentinel \/ last_read s s' r t).
Proof.
  induction fuel as [ | f [IHq [IHw IHp]]].
  - repeat split; intros; simpl in *; discriminate.
  - repeat split.
    + intros r s t s' E.
      pose proof (process_queued_item_cases G W f r s) as H. rewrite E in H.
      inversion H as [Hq Hd | dl Hq Hd | p q Hq E' | i q Hq Hi E'].
      * apply IHw in E'. destruct E' as [E' | E']; [ left; exact E' | right ].
        apply (last_read_after s _ s' r t [EvGet (r, p)]) in E'; auto.
      * apply IHq in E'. destruct E' as [E' | E']; [ left; exact E' | right ].
        apply (last_read_after s _ s' r t [EvGet i; EvPut i]) in E'; auto.
    + intros r p s t s' E. rewrite wait_for_completion_unfold in E.
      match type of E with
      | context [poll_database G W f r p ?s0] =>
          pose proof (IHp r p s0) as H;
          destruct (poll_database G W f r p s0) as [[a | [ | | | | ] | | ] s1]
      end; simpl in E; try discriminate.
      * inversion E; subst.
        destruct (H t s1 eq_refl) as [H' | H']; [ left; exact H' | right ].
        destruct H' as [t0 [p0 [d [row [evs [H0 [Hr [Hc [Ht [Hn' Htr']]]]]]]]]].
        exists t0, p0, d, row, ([EvWait r p] ++ evs). simpl in *.
        repeat split; auto.
        rewrite Htr', <- !app_assoc. reflexivity.
      * inversion E; subst. left. reflexivity.
      * destruct (deadline s) as [d | ]; [ destruct (now s + 1800 <? d) | ];
          simpl in E; try discriminate; inversion E; subst; left; reflexivity.
    + intros r p s t s' E. simpl poll_database in E.
      pose proof (poll_once_now_le r p s) as Hle.
      destruct (poll_once_extends r p s) as [evs1 Htr].
      pose proof (poll_once_returns r p s) as Hret.
      destruct (poll_once W r p s) as [[[t1 | ] | e | | ] s1];
        simpl in *; try discriminate.
      * inversion E; subst. right.
        destruct (Hret t eq_refl) as [d [row [Hr [Hc [Ht [Hn Htr']]]]]].
        exists (now s), p, d, row, []. repeat split; auto.
      * apply IHp in E. destruct E as [E | E]; [ left; exact E | right ].
        apply (last_read_after s s1 s' r t evs1); auto.
      * change (except_PoolError G e (hand_off G W f r p) s1 = (Ret t, s')) in E.
        destruct (except_PoolError_cases G e (hand_off G W f r p) s1)
          as [[_ E2] | [e' [E2 _]]]; rewrite E2 in E; [ | discriminate ].
        rewrite hand_off_eq in E. apply IHq in E.
        destruct E as [E | E]; [ left; exact E | right ].
        apply (last_read_after s _ s' r t (evs1 ++ [EvPut (r, p)])) in E; auto.
        simpl. rewrite Htr, <- app_assoc. reflexivity.
Qed.

End Soundness.

(** ** The completion wait without [PoolError] bound *)

Section Unbound.

Variable G : globals.
Variable W : world.

Hypothesis PoolError_unbound : PoolError_bound G = false.

(** The ways the wait can stop: with the triple of a row that a read on
    pool [p] found complete, or with the [NameError] of the [except]
    clause. *)
Definition unbound_outcome (since result_id : nat) (p : pool) (o : outcome triple)
  : Prop :=
  match o with
  | Ret t =>
      exists t0 d row,
        since <= t0
        /\ w_read W t0 p result_id = (d, Fetched row)
        /\ complete row = true
        /\ t = row_triple row
  | Raise e => e = NameError "PoolError"
  | Hang => False
  | OutOfFuel => True
  end.

Lemma unbound_outcome_later (a b result_id : nat) (p : pool) (o : outcome triple) :
  a <= b -> unbound_outcome b result_id p o -> unbound_outcome a result_id p o.
Proof.
  intros Hab. destruct o as [t | e | | ]; simpl; auto.
  intros [t0 [d [row [H0 H]]]]. exists t0, d, row. split; [ lia | exact H ].
Qed.

Lemma poll_database_unbound (fuel r : nat) (p : pool) :
  forall s,
    queue (snd (poll_database G W fuel r p s)) = queue s
    /\ unbound_outcome (now s) r p (fst (poll_database G W fuel r p s)).
Proof.
  induction fuel as [ | f IH]; intros s; [ simpl; auto | ].
  destruct (poll_database_cases G W f r p s)
    as [s1 Hd1 Hq1 Hc Hn1 | s1 e Hd1 Hq1 Hc Hn1 He | s1 row Hd1 Hq1 Hc Hn1 Hr Hcr
        | s1 row dl' Hd1 Hq1 Hr Hcr Hdl Hlt Hle Hn1 | s1 row Hd1 Hq1 Hr Hcr Hc Hn1].
  - unfold escaping. rewrite PoolError_unbound. simpl. auto.
  - destruct (except_PoolError_cases G e (hand_off G W f r p) s1)
      as [[B _] | [e' [E [He' _]]]]; [ congruence | ].
    rewrite E. simpl. auto.
  - simpl. split; [ exact Hq1 | ].
    exists (now s), (fst (w_read W (now s) p r)), row. repeat split; auto.
    destruct (w_read W (now s) p r); simpl in *; congruence.
  - unfold escaping. rewrite PoolError_unbound. simpl. auto.
  - destruct (IH s1) as [Hq Ho]. split; [ congruence | ].
    apply unbound_outcome_later with (b := now s1); [ lia | exact Ho ].
Qed.

Lemma wait_for_completion_unbound (fuel r : nat) (p : pool) (s : state) :
  queue (snd (wait_for_completion G W fuel r p s)) = queue s
  /\ unbound_outcome (now s) r p (fst (wait_for_completion G W fuel r p s)).
Proof.
  destruct fuel as [ | f]; [ simpl; auto | ].
  rewrite wait_for_completion_unfold.
  match goal with
  | |- context [poll_database G W f r p ?s0] =>
      destruct (poll_database_unbound f r p s0) as [Hq Ho];
      destruct (poll_database G W f r p s0) as [[a | e | | ] s']
  end; simpl in *; auto.
  subst e. simpl. auto.
Qed.

End Unbound.

(** ** A row that completes during the wait *)

Section Completes.

Variable G : globals.
Variable W : world.
Variable result_id : nat.
Variable p : pool.
Variable D delta : nat.

(** Every read answers within [delta]; before time [D] it finds the row
    not complete, from [D] on it finds it complete. *)
Definition completes_at : Prop :=
  forall t, exists d row,
    w_read W t p result_id = (d, Fetched row)
    /\ d <= delta
    /\ complete row = negb (t <? D).

Hypothesis row_completes : completes_at.

Lemma poll_database_completes :
  forall fuel s dl,
    deadline s = Some dl ->
    Nat.max (now s) (D + delta + 5) + delta < dl ->
    D - now s < fuel ->
    exists s' t0 d row,
      poll_database G W fuel result_id p s = (Ret (row_triple row), s')
      /\ w_read W t0 p result_id = (d, Fetched row)
      /\ complete row = true
      /\ D <= t0 /\ now s <= t0 /\ t0 <= Nat.max (now s) (D + delta + 5)
      /\ now s' = t0 + d
      /\ queue s' = queue s.
Proof.
  induction fuel as [ | f IH]; intros s dl Hd Hdl Hf; [ lia | ].
  destruct (row_completes (now s)) as [d [row [Hr [Hle Hc]]]].
  destruct (poll_database_cases G W f result_id p s)
    as [s1 Hd1 Hq1 Hcn Hn1 | s1 e Hd1 Hq1 Hcn Hn1 He | s1 row' Hd1 Hq1 Hcn Hn1 Hr' Hcr
        | s1 row' dl' Hd1 Hq1 Hr' Hcr Hdl' Hlt Hle' Hn1 | s1 row' Hd1 Hq1 Hr' Hcr Hcn Hn1];
    rewrite Hr in *; simpl in *.
  - rewrite Hd in Hcn. simpl in Hcn. apply Nat.leb_le in Hcn. lia.
  - destruct He as [He | [He | He]]; discriminate.
  - inversion Hr'; subst row'. rewrite Hcr in Hc.
    symmetry in Hc. apply negb_true_iff, Nat.ltb_ge in Hc.
    exists s1, (now s), d, row. repeat split; auto; lia.
  - rewrite Hd in Hdl'. inversion Hdl'; subst dl'.
    inversion Hr'; subst row'. rewrite Hcr in Hc.
    symmetry in Hc. apply negb_false_iff, Nat.ltb_lt in Hc. lia.
  - inversion Hr'; subst row'. rewrite Hcr in Hc.
    symmetry in Hc. apply negb_false_iff, Nat.ltb_lt in Hc.
    destruct (IH s1 dl) as [s' [t0 [d0 [row0 [E [Hr0 [Hc0 [HD [Hn0 [Hm [Hn' Hq']]]]]]]]]]];
      [ congruence | lia | lia | ].
    exists s', t0, d0, row0. rewrite E. repeat split; auto; try lia. congruence.
Qed.

End Completes.

(** ** More on the row processor *)

Definition is_open (ev : event) : bool :=
  match ev with
  | EvGetConnection _ => true
  | _ => false
  end.

Definition is_close (ev : event) : bool :=
  match ev with
  | EvClose _ => true
  | _ => false
  end.

(** The result of a completed wait (lines 205-220). *)
Definition completed_result (row : dict pyval) (r : db_row) : dict field :=
  if is_not_None (EntryID r) && is_not_None (ImageUrl r) && is_not_None (ImageDesc r)
  then row_result "result" (FDict [("url", ImageUrl r)])
                  (dict_get row "absoluteRowIndex") (dict_get row "searchValue")
  else error_result row "Task did not complete successfully.".

Section RowMore.

Variable G : globals.
Variable W : world.

Lemma process_row_without_pool (fuel : nat) (row : dict pyval) (uniqueid : pyval)
      (s : state) :
  global_connection_pool G = None ->
  raises_Exceptions W ->
  deadline s = None ->
  exists msg s',
    process_row G W fuel row uniqueid s = (Ret (error_result row msg), s')
    /\ trace s' = trace s ++ [EvPost (dataset_split row uniqueid)]
    /\ queue s' = queue s.
Proof.
  intros Hp [Hc _] Hd. destruct s as [t dl q tr]. simpl in *. subst dl.
  unfold process_row, except_Exception, try_except, create_image_task, bind at 1.
  simpl. fold (dataset_split row uniqueid).
  destruct (w_create W t (dataset_split row uniqueid)) as [d [[resp | ] | e]] eqn:Ec;
    unfold bind, emit, suspend, json_get, load_global_connection_pool; simpl.
  - rewrite Hp. simpl. eexists. eexists. split; [ reflexivity | auto ].
  - eexists. eexists. split; [ reflexivity | auto ].
  - rewrite (Hc _ _ _ _ Ec). eexists. eexists. split; [ reflexivity | auto ].
Qed.

Lemma process_row_completed (fuel : nat) (row : dict pyval) (uniqueid : pyval)
      (s : state) (d d' : nat) (resp : dict pyval) (p : pool) (r : db_row) :
  2 <= fuel ->
  deadline s = None ->
  global_connection_pool G = Some p ->
  w_create W (now s) (dataset_split row uniqueid) = (d, Ok (JDict resp)) ->
  truthy (dict_get resp "task_id") = true ->
  (forall c, w_insert W (row_insert row uniqueid) c = None) ->
  w_read W (now s + d) p (w_lastrowid W) = (d', Fetched (Some r)) ->
  truthy (completeTime r) = true ->
  d' < 1800 ->
  process_row G W fuel row uniqueid s
  = (Ret (completed_result row r),
     mkState (now s + d + d') None []
       (trace s ++ [EvPost (dataset_split row uniqueid); EvGetConnection p;
                    EvInsert (row_insert row uniqueid); EvCommit; EvClose p;
                    EvWait (w_lastrowid W) p; EvGetConnection p;
                    EvSelect (w_lastrowid W); EvClose p])).
Proof.
  intros Hf Hd Hp Hc Ht Hi Hr Hct Hlt. destruct s as [t dl q tr]. simpl in *. subst dl.
  unfold process_row, except_Exception, try_except, create_image_task, bind at 1.
  simpl. unfold dataset_split in Hc. rewrite Hc.
  unfold bind, emit, suspend, json_get, load_global_connection_pool. simpl.
  rewrite Ht, Hp. unfold db_step. unfold row_insert in Hi.
  rewrite !Hi. simpl.
  destruct fuel as [ | [ | f]]; try lia.
  rewrite (wait_for_completion_first_read G W f (w_lastrowid W) p _ d' r)
    by (simpl; auto).
  unfold completed_result, error_result, log, set_now. simpl.
  destruct (is_not_None (EntryID r) && is_not_None (ImageUrl r)
            && is_not_None (ImageDesc r));
    unfold ret; simpl; rewrite <- !app_assoc; reflexivity.
Qed.

(** A raising call between [get_connection] and [connection.close()]
    leaves the connection open. *)
Lemma process_row_leaves_connection (fuel : nat) (row : dict pyval) (uniqueid : pyval)
      (s : state) (d : nat) (resp : dict pyval) (p : pool) (c : db_call) (e : exn) :
  raises_Exceptions W ->
  deadline s = None ->
  global_connection_pool G = Some p ->
  w_create W (now s) (dataset_split row uniqueid) = (d, Ok (JDict resp)) ->
  w_insert W (row_insert row uniqueid) CGetConnection = None ->
  c = CCursor \/ c = CExecute \/ c = CCommit \/ c = CCursorClose ->
  w_insert W (row_insert row uniqueid) c = Some e ->
  exists msg s' evs,
    process_row G W fuel row uniqueid s = (Ret (error_result row msg), s')
    /\ trace s' = trace s ++ evs
    /\ List.length (filter is_open evs) = 1
    /\ List.length (filter is_close evs) = 0.
Proof.
  intros [_ Hex] Hd Hp Hc Hg Hcs He. destruct s as [t dl q tr]. simpl in *. subst dl.
  unfold process_row, except_Exception, try_except, create_image_task, bind at 1.
  simpl. unfold dataset_split in Hc. rewrite Hc.
  unfold bind, emit, suspend, json_get, load_global_connection_pool. simpl.
  rewrite Hp. unfold db_step, emit, raise. unfold row_insert in *. simpl.
  rewrite Hg. simpl.
  insert_steps W;
    try (match goal with
         | H : w_insert W _ _ = Some ?e |- _ => rewrite (Hex _ _ _ H)
         end;
         eexists; eexists; eexists; (split; [ reflexivity | ]); simpl;
         rewrite <- ?app_assoc; simpl; repeat split; reflexivity);
    destruct Hcs as [Hcs | [Hcs | [Hcs | Hcs]]]; subst c; congruence.
Qed.

End RowMore.

(** ** More on polling the remote service *)

Definition is_poll_or_sleep (task_id : pyval) (ev : event) : Prop :=
  ev = EvPoll task_id \/ exists d, ev = EvSleep d.

Section PollingMore.

Variable W : world.
Variable task_id : pyval.

Lemma poll_loop_request_raises (fuel timeout start_time : nat) (s : state) (d : nat)
      (e : exn) :
  deadline s = None ->
  now s - start_time <= timeout ->
  w_poll W (now s) task_id = (d, Fails e) ->
  poll_loop W (S fuel) task_id timeout start_time s
  = (Raise e, set_now (now s + d) (log [EvPoll task_id] s)).
Proof.
  intros Hd Ht Hr. simpl. apply Nat.ltb_ge in Ht. rewrite Ht, Hr.
  unfold bind, emit, suspend. simpl. rewrite Hd. reflexivity.
Qed.

Lemma poll_loop_no_status (fuel timeout start_time : nat) (s : state) (d : nat)
      (data : dict pyval) :
  deadline s = None ->
  now s - start_time <= timeout ->
  w_poll W (now s) task_id = (d, Ok (JDict data)) ->
  lookup "status" data = None ->
  poll_loop W (S fuel) task_id timeout start_time s
  = (Raise (OtherError "'status'"), set_now (now s + d) (log [EvPoll task_id] s)).
Proof.
  intros Hd Ht Hr Hs. simpl. apply Nat.ltb_ge in Ht. rewrite Ht, Hr.
  unfold bind, emit, suspend, json_subscript. simpl. rewrite Hd. simpl.
  rewrite Hs. reflexivity.
Qed.

Lemma poll_loop_interval_unset (fuel timeout start_time : nat) (s : state) (e : exn) :
  deadline s = None ->
  now s - start_time <= timeout ->
  inconclusive (snd (w_poll W (now s) task_id)) ->
  w_poll_interval W = Fails e ->
  poll_loop W (S fuel) task_id timeout start_time s
  = (Raise e, set_now (now s + fst (w_poll W (now s) task_id))
                      (log [EvPoll task_id] s)).
Proof.
  intros Hd Ht [data [status [Hr [Hs [H1 [H2 H3]]]]]] Hi.
  simpl. apply Nat.ltb_ge in Ht. rewrite Ht.
  destruct (w_poll W (now s) task_id) as [d r]. simpl in Hr. subst r.
  unfold bind, emit, suspend, json_subscript. simpl. rewrite Hd. simpl.
  rewrite Hs. unfold ret. rewrite H1, H2, H3. simpl. rewrite Hi. reflexivity.
Qed.

Lemma poll_loop_events (timeout start_time : nat) :
  forall fuel, emits (Forall (is_poll_or_sleep task_id))
                     (poll_loop W fuel task_id timeout start_time).
Proof.
  pose (ok := Forall (is_poll_or_sleep task_id)).
  assert (ok_nil : ok []) by constructor.
  assert (ok_app : forall a b, ok a -> ok b -> ok (a ++ b)).
  { intros a b Ha Hb. apply Forall_app. auto. }
  assert (ok_poll : ok [EvPoll task_id]).
  { constructor; [ left; reflexivity | constructor ]. }
  assert (ok_sleep : forall n, ok [EvSleep n]).
  { intros n. constructor; [ right; eexists; reflexivity | constructor ]. }
  induction fuel as [ | f IH]; [ apply emits_out_of_fuel; assumption | ].
  intros s. simpl. destruct (timeout <? now s - start_time).
  { exists []. simpl. rewrite app_nil_r. auto. }
  destruct (w_poll W (now s) task_id) as [d r].
  match goal with
  | |- exists evs, trace (snd (?m s)) = _ /\ _ =>
      assert (H : emits ok m); [ | exact (H s) ]
  end.
  apply emits_bind; auto. { apply emits_emit; auto. }
  intros _. apply emits_bind; auto. { apply emits_suspend; auto. }
  intros _. destruct r as [data | e]; [ | apply emits_raise; auto ].
  apply emits_bind; auto.
  { unfold json_subscript. destruct data as [dd | ];
      [ destruct (lookup "status" dd) | ];
      first [ apply emits_ret; assumption | apply emits_raise; assumption ]. }
  intros status.
  destruct (pyval_eqb status (PStr "Completed")); [ apply emits_ret; auto | ].
  destruct (pyval_eqb status (PStr "Failed") || pyval_eqb status (PStr "Error"));
    [ apply emits_ret; auto | ].
  destruct (w_poll_interval W) as [n | e]; [ | apply emits_raise; auto ].
  apply emits_bind; auto. apply emits_sleep; auto.
Qed.

End PollingMore.

(** * Properties beyond the specification *)

(** X1. A row that the external writer completes at time [D] is returned:
    when every read answers within [delta] and the completion comes
    early enough for the deadline, [wait_for_completion] returns the
    (EntryID, ImageUrl, ImageDesc) of a row read complete at or after
    [D], no later than one sleep and two reads after [D] (or one read
    after its start, when the row was complete already), and leaves the
    queue alone. *)
Theorem wait_for_completion_returns_completed_row
        (G : globals) (W : world) (result_id : nat) (p : pool) (D delta fuel : nat)
        (s : state) :
  completes_at W result_id p D delta ->
  deadline s = None ->
  Nat.max (now s) (D + delta + 5) + delta < now s + 1800 ->
  D - now s + 1 < fuel ->
  exists s' t0 d row,
    wait_for_completion G W fuel result_id p s = (Ret (row_triple row), s')
    /\ w_read W t0 p result_id = (d, Fetched row)
    /\ complete row = true
    /\ D <= t0
    /\ now s' = t0 + d
    /\ now s' <= Nat.max (now s) (D + delta + 5) + delta
    /\ queue s' = queue s.
Proof.
  intros Hw Hd Hdl Hf.
  destruct fuel as [ | f]; [ lia | ].
  rewrite wait_for_completion_unfold.
  match goal with
  | |- context [poll_database G W f result_id p ?s0] =>
      destruct (poll_database_completes G W result_id p D delta Hw f s0
                  (now s + 1800))
        as [s' [t0 [d [row [E [Hr [Hc [HD [Hn [Hm [Hn' Hq]]]]]]]]]]]
  end.
  - unfold wait_deadline. rewrite Hd. reflexivity.
  - simpl. exact Hdl.
  - simpl. lia.
  - rewrite E. simpl.
    assert (Hdur : d <= delta).
    { destruct (Hw t0) as [d1 [row1 [Hr1 [Hle _]]]]. congruence. }
    exists (set_deadline (deadline s) s'), t0, d, row.
    simpl in *. repeat split; auto. lia.
Qed.

Lemma wait_for_completion_returns_completed_row_witness :
  exists s' t0 d row,
    wait_for_completion bound_globals world_completing 5 42 0 idle
    = (Ret (row_triple row), s')
    /\ w_read world_completing t0 0 42 = (d, Fetched row)
    /\ complete row = true
    /\ 3 <= t0
    /\ now s' = t0 + d
    /\ now s' <= Nat.max (now idle) (3 + 1 + 5) + 1
    /\ queue s' = queue idle.
Proof.
  apply (wait_for_completion_returns_completed_row bound_globals world_completing
           42 0 3 1 5 idle).
  - intros t. exists 1, (Some (shoe_row (if t <? 3 then PNone else PInt 3))).
    split; [ reflexivity | ]. split; [ lia | ].
    simpl. destruct (t <? 3); reflexivity.
  - reflexivity.
  - simpl. lia.
  - simpl. lia.
Defined.

(** X2. On the module as written, a [wait_for_completion] called outside
    any other timer stops in two ways only: it returns the triple of a
    row that a read on its own pool found complete, or it raises
    [NameError] for the name [PoolError].  Whatever the read raised is
    replaced by that [NameError], the branch of [except TimeoutError] is
    never taken, and the queue is never touched: lines 110-115 and
    120-123 are dead. *)
Theorem wait_for_completion_as_written_outcomes
        (W : world) (fuel result_id : nat) (p : pool) (s : state) :
  deadline s = None ->
  queue (snd (wait_for_completion utility_globals W fuel result_id p s)) = queue s
  /\ match fst (wait_for_completion utility_globals W fuel result_id p s) with
     | Ret t =>
         exists t0 d row,
           now s <= t0
           /\ w_read W t0 p result_id = (d, Fetched row)
           /\ complete row = true
           /\ t = row_triple row
     | Raise e => e = NameError "PoolError"
     | Hang => False
     | OutOfFuel => True
     end.
Proof.
  intros _.
  exact (wait_for_completion_unbound utility_globals W eq_refl fuel result_id p s).
Qed.

Lemma wait_for_completion_as_written_outcomes_witness :
  queue (snd (wait_for_completion utility_globals world_exhausted 2 42 0 idle))
  = queue idle
  /\ match fst (wait_for_completion utility_globals world_exhausted 2 42 0 idle) with
     | Ret t =>
         exists t0 d row,
           now idle <= t0
           /\ w_read world_exhausted t0 0 42 = (d, Fetched row)
           /\ complete row = true
           /\ t = row_triple row
     | Raise e => e = NameError "PoolError"
     | Hang => False
     | OutOfFuel => True
     end.
Proof.
  apply (wait_for_completion_as_written_outcomes world_exhausted 2 42 0 idle).
  reflexivity.
Defined.

(** X3. Whatever the bindings, a wait that stops leaves in the queue the
    result ids it found there, in some order: a hand-off takes out one
    item for its id for the one it put in, and puts back every other item
    it inspected. *)
Theorem wait_for_completion_keeps_queue_ids
        (G : globals) (W : world) (fuel result_id : nat) (p : pool) (s : state) :
  terminated (fst (wait_for_completion G W fuel result_id p s)) ->
  Permutation (ids (queue (snd (wait_for_completion G W fuel result_id p s))))
              (ids (queue s)).
Proof.
  apply (wait_coroutines_queue G W fuel).
Qed.

Example wait_for_completion_hand_off_run :
  wait_for_completion bound_globals world_recovering 8 42 0
    (mkState 0 None [(7, 1); (42, 5); (9, 2)] [])
  = (Ret (PInt 7, PStr "http://x/img.jpg", PStr "shoe"),
     mkState 2 None [(9, 2); (42, 0); (7, 1)]
       [EvWait 42 0; EvPut (42, 0); EvGet (7, 1); EvPut (7, 1); EvGet (42, 5);
        EvWait 42 5; EvGetConnection 5; EvSelect 42; EvClose 5]).
Proof. reflexivity. Qed.

Lemma wait_for_completion_keeps_queue_ids_witness :
  Permutation
    (ids (queue (snd (wait_for_completion bound_globals world_recovering 8 42 0
                        (mkState 0 None [(7, 1); (42, 5); (9, 2)] [])))))
    (ids (queue (mkState 0 None [(7, 1); (42, 5); (9, 2)] []))).
Proof.
  apply (wait_for_completion_keeps_queue_ids bound_globals world_recovering 8 42 0
           (mkState 0 None [(7, 1); (42, 5); (9, 2)] [])).
  vm_compute. exact I.
Defined.

(** X4. Whatever the bindings and whatever the datastore answers, when
    every read takes between 1 and [delta] time units the wait stops,
    and the clock then is at most 1800 + [delta] past its start: the wait
    outlasts its deadline by no more than the read in flight. *)
Theorem wait_for_completion_stops_in_time
        (G : globals) (W : world) (delta fuel result_id : nat) (p : pool)
        (s : state) :
  (forall t q r, 1 <= fst (w_read W t q r) <= delta) ->
  in_time s ->
  wait_fuel (List.length (queue s)) <= fuel ->
  terminated (fst (wait_for_completion G W fuel result_id p s))
  /\ now (snd (wait_for_completion G W fuel result_id p s)) <= now s + 1800 + delta.
Proof.
  intros Hr Hs Hf. split.
  - apply wait_for_completion_terminates; [ | exact Hf ].
    intros t q r. apply Hr.
  - destruct (wait_coroutines_time G W delta (fun t q r => proj2 (Hr t q r)) fuel)
      as [_ [Hw _]].
    pose proof (Hw result_id p s Hs) as H.
    pose proof (wait_deadline_le s). lia.
Qed.

Lemma wait_for_completion_stops_in_time_witness :
  terminated (fst (wait_for_completion bound_globals world_exhausted
                     (wait_fuel 0) 42 0 idle))
  /\ now (snd (wait_for_completion bound_globals world_exhausted
                 (wait_fuel 0) 42 0 idle)) <= now idle + 1800 + 1.
Proof.
  apply (wait_for_completion_stops_in_time bound_globals world_exhausted 1
           (wait_fuel 0) 42 0 idle).
  - intros t q r. simpl. lia.
  - exact I.
  - simpl. lia.
Defined.

(** X5. Whatever the bindings, what [wait_for_completion] returns is the
    sentinel or the answer of the last read the wait made: that read was
    for the same result id, was started during the wait, found the row
    complete, its events are the last of the trace and its end is the
    end of the wait.  The wait never returns the data of a row it read
    as not complete, nor of another id. *)
Theorem wait_for_completion_returns_complete_rows_only
        (G : globals) (W : world) (fuel result_id : nat) (p : pool)
        (s : state) (t : triple) (s' : state) :
  wait_for_completion G W fuel result_id p s = (Ret t, s') ->
  t = sentinel
  \/ exists t0 p0 d row evs,
       now s <= t0
       /\ w_read W t0 p0 result_id = (d, Fetched row)
       /\ complete row = true
       /\ t = row_triple row
       /\ now s' = t0 + d
       /\ trace s' = trace s ++ evs
                      ++ [EvGetConnection p0; EvSelect result_id; EvClose p0].
Proof.
  apply (wait_coroutines_sound G W fuel).
Qed.

Lemma wait_for_completion_returns_complete_rows_only_witness :
  (PInt 7, PStr "http://x/img.jpg", PStr "shoe") = sentinel
  \/ exists t0 p0 d row evs,
       now (mkState 0 None [(7, 1); (42, 5); (9, 2)] []) <= t0
       /\ w_read world_recovering t0 p0 42 = (d, Fetched row)
       /\ complete row = true
       /\ (PInt 7, PStr "http://x/img.jpg", PStr "shoe") = row_triple row
       /\ now (mkState 2 None [(9, 2); (42, 0); (7, 1)]
                [EvWait 42 0; EvPut (42, 0); EvGet (7, 1); EvPut (7, 1);
                 EvGet (42, 5); EvWait 42 5;
                 EvGetConnection 5; EvSelect 42; EvClose 5]) = t0 + d
       /\ trace (mkState 2 None [(9, 2); (42, 0); (7, 1)]
                  [EvWait 42 0; EvPut (42, 0); EvGet (7, 1); EvPut (7, 1);
                   EvGet (42, 5); EvWait 42 5;
                   EvGetConnection 5; EvSelect 42; EvClose 5])
          = trace (mkState 0 None [(7, 1); (42, 5); (9, 2)] []) ++ evs
            ++ [EvGetConnection p0; EvSelect 42; EvClose p0].
Proof.
  apply (wait_for_completion_returns_complete_rows_only bound_globals world_recovering
           8 42 0 (mkState 0 None [(7, 1); (42, 5); (9, 2)] [])).
  reflexivity.
Defined.

(** X6. On the module as written, [process_row] never gets past the
    remote call: for every row and every world it returns an error
    result, and the only thing it did is the POST.  No tracking row is
    inserted, no wait is entered, the queue is not touched. *)
Theorem process_row_as_written_only_posts
        (W : world) (fuel : nat) (row : dict pyval) (uniqueid : pyval) (s : state) :
  raises_Exceptions W ->
  deadline s = None ->
  exists msg s',
    process_row utility_globals W fuel row uniqueid s
    = (Ret (error_result row msg), s')
    /\ trace s' = trace s ++ [EvPost (dataset_split row uniqueid)]
    /\ queue s' = queue s.
Proof.
  intros He Hd.
  apply (process_row_without_pool utility_globals W fuel row uniqueid s eq_refl He Hd).
Qed.

Lemma process_row_as_written_only_posts_witness :
  exists msg s',
    process_row utility_globals world_done 3 nike_row batch1 idle
    = (Ret (error_result nike_row msg), s')
    /\ trace s' = trace idle ++ [EvPost (dataset_split nike_row batch1)]
    /\ queue s' = queue idle.
Proof.
  apply (process_row_as_written_only_posts world_done 3 nike_row batch1 idle).
  - split; intros; simpl in *; discriminate.
  - reflexivity.
Defined.

(** X7. With the pool bound, a task id, an insert that goes through and a
    row found complete at the first read, [process_row] returns
    [{"result": {"url": ImageUrl}}] exactly when EntryID, ImageUrl and
    ImageDesc are all non-null; a completed row with one of them null is
    reported as "Task did not complete successfully.".  The wait is for
    [cursor.lastrowid] on the global pool. *)
Theorem process_row_completed_result
        (G : globals) (W : world) (fuel : nat) (row : dict pyval) (uniqueid : pyval)
        (s : state) (d d' : nat) (resp : dict pyval) (p : pool) (r : db_row) :
  2 <= fuel ->
  deadline s = None ->
  global_connection_pool G = Some p ->
  w_create W (now s) (dataset_split row uniqueid) = (d, Ok (JDict resp)) ->
  truthy (dict_get resp "task_id") = true ->
  (forall c, w_insert W (row_insert row uniqueid) c = None) ->
  w_read W (now s + d) p (w_lastrowid W) = (d', Fetched (Some r)) ->
  truthy (completeTime r) = true ->
  d' < 1800 ->
  exists res s',
    process_row G W fuel row uniqueid s = (Ret res, s')
    /\ existsb (fun ev => match ev with
                          | EvWait r0 p0 => (r0 =? w_lastrowid W) && (p0 =? p)
                          | _ => false
                          end) (trace s') = true
    /\ (EntryID r <> PNone /\ ImageUrl r <> PNone /\ ImageDesc r <> PNone ->
        lookup "result" res = Some (FDict [("url", ImageUrl r)])
        /\ lookup "error" res = None)
    /\ (EntryID r = PNone \/ ImageUrl r = PNone \/ ImageDesc r = PNone ->
        lookup "error" res = Some (FVal (PStr "Task did not complete successfully."))
        /\ lookup "result" res = None).
Proof.
  intros Hf Hd Hp Hc Ht Hi Hr Hct Hlt.
  rewrite (process_row_completed G W fuel row uniqueid s d d' resp p r)
    by assumption.
  eexists. eexists. split; [ reflexivity | ]. split.
  - simpl. rewrite existsb_app. simpl. rewrite !Nat.eqb_refl. simpl.
    rewrite !orb_true_r. reflexivity.
  - unfold completed_result. split.
    + intros [H1 [H2 H3]].
      destruct (EntryID r), (ImageUrl r), (ImageDesc r); try congruence;
        simpl; auto.
    + intros [H | [H | H]]; rewrite H; simpl;
        rewrite ?andb_false_r; simpl; auto;
        destruct (is_not_None (EntryID r)); simpl; auto;
        destruct (is_not_None (ImageUrl r)); simpl; auto.
Qed.

Lemma process_row_completed_result_witness :
  exists res s',
    process_row bound_globals world_done 2 nike_row batch1 idle = (Ret res, s')
    /\ existsb (fun ev => match ev with
                          | EvWait r0 p0 => (r0 =? 42) && (p0 =? 0)
                          | _ => false
                          end) (trace s') = true
    /\ (PInt 7 <> PNone /\ PStr "http://x/img.jpg" <> PNone /\ PStr "shoe" <> PNone ->
        lookup "result" res = Some (FDict [("url", PStr "http://x/img.jpg")])
        /\ lookup "error" res = None)
    /\ (PInt 7 = PNone \/ PStr "http://x/img.jpg" = PNone \/ PStr "shoe" = PNone ->
        lookup "error" res = Some (FVal (PStr "Task did not complete successfully."))
        /\ lookup "result" res = None).
Proof.
  apply (process_row_completed_result bound_globals world_done 2 nike_row batch1 idle
           1 1 [("task_id", PStr "t1")] 0 (shoe_row (PInt 3))).
  - lia.
  - reflexivity.
  - reflexivity.
  - reflexivity.
  - reflexivity.
  - intros c. reflexivity.
  - reflexivity.
  - reflexivity.
  - lia.
Defined.

(** X8. The tracking row is inserted before the task id is looked at:
    when the creation answers without a usable task id and the insert
    goes through, [process_row] has executed and committed the INSERT for
    the row although it starts no wait and returns an error. *)
Theorem process_row_inserts_without_task_id
        (G : globals) (W : world) (fuel : nat) (row : dict pyval) (uniqueid : pyval)
        (s : state) (d : nat) (resp : dict pyval) (p : pool) :
  deadline s = None ->
  w_create W (now s) (dataset_split row uniqueid) = (d, Ok (JDict resp)) ->
  truthy (dict_get resp "task_id") = false ->
  global_connection_pool G = Some p ->
  (forall c, w_insert W (row_insert row uniqueid) c = None) ->
  store_writes (trace (snd (process_row G W fuel row uniqueid s)))
  = store_writes (trace s) ++ [EvInsert (row_insert row uniqueid); EvCommit]
  /\ existsb is_wait (trace (snd (process_row G W fuel row uniqueid s)))
     = existsb is_wait (trace s).
Proof.
  intros Hd Hc Ht Hp Hi.
  rewrite (process_row_failed_to_start G W fuel row uniqueid s d resp p Hd Hc Ht Hp Hi).
  simpl. rewrite store_writes_app, existsb_app. simpl.
  rewrite orb_false_r. auto.
Qed.

Lemma process_row_inserts_without_task_id_witness :
  store_writes
    (trace (snd (process_row bound_globals
                   (world_creating (Ok (JDict [])) (fun _ => None))
                   1 nike_row batch1 idle)))
  = store_writes (trace idle) ++ [EvInsert (row_insert nike_row batch1); EvCommit]
  /\ existsb is_wait
       (trace (snd (process_row bound_globals
                      (world_creating (Ok (JDict [])) (fun _ => None))
                      1 nike_row batch1 idle)))
     = existsb is_wait (trace idle).
Proof.
  apply (process_row_inserts_without_task_id bound_globals
           (world_creating (Ok (JDict [])) (fun _ => None))
           1 nike_row batch1 idle 1 [] 0).
  - reflexivity.
  - reflexivity.
  - reflexivity.
  - reflexivity.
  - intros c. reflexivity.
Defined.

(** X9. [process_row] closes its connection only on the way through:
    when [get_connection] succeeds and the cursor, the execute, the
    commit or the closing of the cursor raises, the error result is
    returned with the connection taken and never closed. *)
Theorem process_row_failing_insert_leaves_connection
        (G : globals) (W : world) (fuel : nat) (row : dict pyval) (uniqueid : pyval)
        (s : state) (d : nat) (resp : dict pyval) (p : pool) (c : db_call) (e : exn) :
  raises_Exceptions W ->
  deadline s = None ->
  global_connection_pool G = Some p ->
  w_create W (now s) (dataset_split row uniqueid) = (d, Ok (JDict resp)) ->
  w_insert W (row_insert row uniqueid) CGetConnection = None ->
  c = CCursor \/ c = CExecute \/ c = CCommit \/ c = CCursorClose ->
  w_insert W (row_insert row uniqueid) c = Some e ->
  exists msg s' evs,
    process_row G W fuel row uniqueid s = (Ret (error_result row msg), s')
    /\ trace s' = trace s ++ evs
    /\ List.length (filter is_open evs) = 1
    /\ List.length (filter is_close evs) = 0.
Proof.
  intros He Hd Hp Hc Hg Hcs Hf.
  apply (process_row_leaves_connection G W fuel row uniqueid s d resp p c e);
    assumption.
Qed.

Lemma process_row_failing_insert_leaves_connection_witness :
  exists msg s' evs,
    process_row bound_globals
      (world_creating (Ok (JDict [("task_id", PStr "t1")])) execute_fails)
      3 nike_row batch1 idle
    = (Ret (error_result nike_row msg), s')
    /\ trace s' = trace idle ++ evs
    /\ List.length (filter is_open evs) = 1
    /\ List.length (filter is_close evs) = 0.
Proof.
  apply (process_row_failing_insert_leaves_connection bound_globals
           (world_creating (Ok (JDict [("task_id", PStr "t1")])) execute_fails)
           3 nike_row batch1 idle 1 [("task_id", PStr "t1")] 0 CExecute
           (OtherError "1064 (42000): You have an error in your SQL syntax")).
  - split.
    + intros t b d0 e0 H. simpl in H. discriminate.
    + intros sql c0 e0 H. simpl in H.
      destruct c0; simpl in H; inversion H; reflexivity.
  - reflexivity.
  - reflexivity.
  - reflexivity.
  - reflexivity.
  - right. left. reflexivity.
  - reflexivity.
Defined.

(** X10. [poll_task_status] turns only the statuses "Failed" and "Error"
    into an error result.  After any number of answers that decide
    nothing, a request that raises makes [poll_task_status] raise the
    same exception, and an answer without the key "status" makes it raise
    the [KeyError]. *)
Theorem poll_task_status_raises_remote_errors
        (W : world) (task_id : pyval) (interval : Z) (timeout k fuel : nat)
        (s : state) :
  w_poll_interval W = Ok interval ->
  deadline s = None ->
  (forall j, j < k ->
     now (poll_rounds W task_id interval j s) - now s <= timeout
     /\ inconclusive
          (snd (w_poll W (now (poll_rounds W task_id interval j s)) task_id))) ->
  now (poll_rounds W task_id interval k s) - now s <= timeout ->
  let sk := poll_rounds W task_id interval k s in
  (forall d e,
      w_poll W (now sk) task_id = (d, Fails e) ->
      poll_task_status W (k + S fuel) task_id timeout s
      = (Raise e, set_now (now sk + d) (log [EvPoll task_id] sk)))
  /\ (forall d data,
        w_poll W (now sk) task_id = (d, Ok (JDict data)) ->
        lookup "status" data = None ->
        poll_task_status W (k + S fuel) task_id timeout s
        = (Raise (OtherError "'status'"),
           set_now (now sk + d) (log [EvPoll task_id] sk))).
Proof.
  intros Hi Hd Hk Ht sk.
  assert (Hdk : deadline sk = None).
  { unfold sk, poll_rounds. clear Hk Ht. induction k as [ | k IH]; [ exact Hd | exact IH ]. }
  assert (Hloop : forall n,
            poll_task_status W (k + n) task_id timeout s
            = poll_loop W n task_id timeout (now s) sk).
  { intros n. unfold poll_task_status.
    apply (poll_loop_rounds W task_id interval Hi); assumption. }
  split.
  - intros d e Hr. rewrite Hloop. apply poll_loop_request_raises; assumption.
  - intros d data Hr Hs. rewrite Hloop.
    apply poll_loop_no_status with (data := data); assumption.
Qed.

(** The remote task is pending at time 0; later the service cannot be
    reached. *)
Definition world_unreachable : world :=
  {| w_create := fun _ _ => (1, Ok (JDict [("task_id", PStr "t1")]));
     w_insert := fun _ _ => None;
     w_lastrowid := 42;
     w_read := fun _ _ _ => (1, Fetched None);
     w_poll := fun t _ =>
       if t =? 0 then (1, Ok (JDict [("status", PStr "Pending")]))
       else (1, Fails (OtherError "connection refused"));
     w_poll_interval := Ok 60%Z |}.

Lemma poll_task_status_raises_remote_errors_witness :
  poll_task_status world_unreachable 2 (PStr "t1") default_timeout idle
  = (Raise (OtherError "connection refused"),
     mkState 62 None []
             [EvPoll (PStr "t1"); EvSleep 60; EvPoll (PStr "t1")]).
Proof.
  assert (H0 : forall j, j < 1 ->
            now (poll_rounds world_unreachable (PStr "t1") 60%Z j idle) - now idle
            <= default_timeout
            /\ inconclusive
                 (snd (w_poll world_unreachable
                         (now (poll_rounds world_unreachable (PStr "t1") 60%Z j idle))
                         (PStr "t1")))).
  { intros j Hj. assert (j = 0) by lia. subst j. split; [ simpl; lia | ].
    exists [("status", PStr "Pending")], (PStr "Pending"). repeat split. }
  assert (H1 : now (poll_rounds world_unreachable (PStr "t1") 60%Z 1 idle) - now idle
               <= default_timeout) by (vm_compute; lia).
  destruct (poll_task_status_raises_remote_errors world_unreachable (PStr "t1") 60%Z
              default_timeout 1 0 idle eq_refl eq_refl H0 H1) as [Hraise _].
  apply (Hraise 1 (OtherError "connection refused")).
  reflexivity.
Defined.

(** X11. [POLL_INTERVAL] is read only to sleep.  When
    [int(os.environ.get('POLL_INTERVAL'))] raises (the variable is unset
    or not a number), [poll_task_status] still returns a first answer
    whose status is "Completed", and raises that exception after a first
    answer that decides nothing. *)
Theorem poll_task_status_interval_unset
        (W : world) (task_id : pyval) (timeout fuel : nat) (s : state) (e : exn) :
  w_poll_interval W = Fails e ->
  deadline s = None ->
  (forall d data,
      w_poll W (now s) task_id = (d, Ok (JDict data)) ->
      lookup "status" data = Some (PStr "Completed") ->
      poll_task_status W (S fuel) task_id timeout s
      = (Ret data, set_now (now s + d) (log [EvPoll task_id] s)))
  /\ (inconclusive (snd (w_poll W (now s) task_id)) ->
      poll_task_status W (S fuel) task_id timeout s
      = (Raise e, set_now (now s + fst (w_poll W (now s) task_id))
                          (log [EvPoll task_id] s))).
Proof.
  intros Hi Hd. unfold poll_task_status. split.
  - intros d data Hr Hs.
    apply (poll_loop_completed W task_id); auto. lia.
  - intros Hinc. apply poll_loop_interval_unset; auto. lia.
Qed.

(** The remote task is pending, and [POLL_INTERVAL] is not set. *)
Definition world_no_interval : world :=
  {| w_create := fun _ _ => (1, Ok (JDict [("task_id", PStr "t1")]));
     w_insert := fun _ _ => None;
     w_lastrowid := 42;
     w_read := fun _ _ _ => (1, Fetched None);
     w_poll := fun _ _ => (1, Ok (JDict [("status", PStr "Pending")]));
     w_poll_interval :=
       Fails (OtherError "int() argument must be a string, a bytes-like object or a real number, not 'NoneType'") |}.

Lemma poll_task_status_interval_unset_witness :
  poll_task_status world_no_interval 1 (PStr "t1") default_timeout idle
  = (Raise (OtherError "int() argument must be a string, a bytes-like object or a real number, not 'NoneType'"),
     mkState 1 None [] [EvPoll (PStr "t1")]).
Proof.
  destruct (poll_task_status_interval_unset world_no_interval (PStr "t1")
              default_timeout 0 idle _ eq_refl eq_refl) as [_ H].
  apply H.
  exists [("status", PStr "Pending")], (PStr "Pending"). repeat split.
Defined.

(** X12. [poll_task_status] only polls and sleeps: however long it runs
    and whatever it is answered, the events it adds are requests for its
    own task id and sleeps; it makes no datastore call and no queue
    operation. *)
Theorem poll_task_status_only_polls_and_sleeps
        (W : world) (fuel : nat) (task_id : pyval) (timeout : nat) (s : state) :
  exists evs,
    trace (snd (poll_task_status W fuel task_id timeout s)) = trace s ++ evs
    /\ Forall (is_poll_or_sleep task_id) evs.
Proof.
  unfold poll_task_status.
  apply (poll_loop_events W task_id timeout (now s) fuel s).
Qed.

(** X13. On a queue that is not empty and holds no item for [result_id],
    [process_queued_item] goes round without ever suspending:
    [queue.get()] and [queue.put()] return at once, so no time passes,
    the items only change places, and not even a timer around the call
    ends it. *)
Theorem process_queued_item_spins
        (G : globals) (W : world) (result_id fuel : nat) (s : state) :
  queue s <> [] ->
  Forall (fun i => fst i <> result_id) (queue s) ->
  fst (process_queued_item G W fuel result_id s) = OutOfFuel
  /\ now (snd (process_queued_item G W fuel result_id s)) = now s
  /\ deadline (snd (process_queued_item G W fuel result_id s)) = deadline s
  /\ Permutation (queue (snd (process_queued_item G W fuel result_id s))) (queue s).
Proof.
  revert s. induction fuel as [ | f IH]; intros s Hne Hall.
  - simpl. repeat split. apply Permutation_refl.
  - destruct (queue s) as [ | i q] eqn:Q; [ congruence | ].
    inversion Hall as [ | ? ? Hi Hq]; subst.
    rewrite (process_queued_item_head_mismatch G W f result_id i s q Q Hi).
    match goal with
    | |- context [process_queued_item G W f result_id ?s0] =>
        destruct (IH s0) as [Ho [Hn [Hd Hp]]]
    end.
    + simpl. destruct q; discriminate.
    + simpl. apply Forall_app. auto.
    + simpl in *. repeat split; auto.
      eapply Permutation_trans; [ exact Hp | ].
      apply Permutation_sym, Permutation_cons_append.
Qed.

Lemma process_queued_item_spins_witness :
  fst (process_queued_item bound_globals world_done 50 42
         (mkState 0 (Some 1800) [(7, 1); (9, 2)] [])) = OutOfFuel
  /\ now (snd (process_queued_item bound_globals world_done 50 42
                 (mkState 0 (Some 1800) [(7, 1); (9, 2)] []))) = 0
  /\ deadline (snd (process_queued_item bound_globals world_done 50 42
                      (mkState 0 (Some 1800) [(7, 1); (9, 2)] []))) = Some 1800
  /\ Permutation
       (queue (snd (process_queued_item bound_globals world_done 50 42
                      (mkState 0 (Some 1800) [(7, 1); (9, 2)] []))))
       [(7, 1); (9, 2)].
Proof.
  apply (process_queued_item_spins bound_globals world_done 42 50
           (mkState 0 (Some 1800) [(7, 1); (9, 2)] [])).
  - simpl. discriminate.
  - repeat constructor; simpl; lia.
Defined.
